(** * agent/mongo: convergence of the local mongod service

    A shallow embedding of [agent/mongo/mongo.go].  The Go functions are
    written in a state-and-log monad over a [World] that holds the process
    supervisor (upstart), the file system and the database cluster; every
    call the code makes into one of them is recorded as an [Event]. *)

From Stdlib Require Import ZArith String Ascii List Bool Lia.
From Stdlib Require Import Decimal DecimalString DecimalZ.
From stdpp Require Import base gmap strings list fin_maps.

Import ListNotations.
Open Scope string_scope.
Open Scope list_scope.
Open Scope Z_scope.

(** ** Strings and formatting *)

(** [fmt.Sprint] and the [%d] verb on an [int]. *)
Definition itoa (n : Z) : string := NilZero.string_of_int (Z.to_int n).

(** [strings.HasPrefix]. *)
Fixpoint HasPrefix (s pre : string) {struct pre} : bool :=
  match pre, s with
  | EmptyString, _ => true
  | String c pre', String d s' => if Ascii.eqb c d then HasPrefix s' pre' else false
  | String _ _, EmptyString => false
  end.

(** [strings.Contains]. *)
Fixpoint Contains (s sub : string) : bool :=
  HasPrefix s sub ||
  match s with
  | EmptyString => false
  | String _ s' => Contains s' sub
  end.

(** [strings.Join]. *)
Definition strings_Join (elem : list string) (sep : string) : string :=
  String.concat sep elem.

(** ** Lexical paths: Go's [path] package

    upstart exists on Linux only, where [path/filepath] and [path] agree,
    so [filepath.Join] is [path.Join]. *)

(** The elements of a path between its slashes; never the empty list. *)
Fixpoint split_slash (s : string) : list string :=
  match s with
  | EmptyString => [EmptyString]
  | String c s' =>
      if Ascii.eqb c "/" then EmptyString :: split_slash s'
      else match split_slash s' with
           | h :: t => String c h :: t
           | [] => [String c EmptyString]
           end
  end.

(** One element of [path.Clean]'s scan; [stack] holds the elements kept so
    far, the last one first.  Empty and [.] elements are dropped; [..]
    removes the last real element, is dropped at the root, and is kept at
    the head of an unrooted path. *)
Definition clean_step (rooted : bool) (stack : list string) (e : string) : list string :=
  if String.eqb e "" || String.eqb e "." then stack
  else if String.eqb e ".." then
    match stack with
    | top :: rest => if String.eqb top ".." then e :: stack else rest
    | [] => if rooted then [] else [e]
    end
  else e :: stack.

(** [path.Clean]. *)
Definition Clean (path : string) : string :=
  if String.eqb path "" then "." else
  let rooted := HasPrefix path "/" in
  let stack := fold_left (clean_step rooted) (split_slash path) [] in
  let out := (if rooted then "/" else "") +:+ strings_Join (rev stack) "/" in
  if String.eqb out "" then "." else out.

(** [path.Join]: the elements from the first non-empty one on, joined with
    slashes and cleaned. *)
Fixpoint Join (elem : list string) : string :=
  match elem with
  | [] => ""
  | e :: rest => if String.eqb e "" then Join rest else Clean (strings_Join elem "/")
  end.

Definition filepath_Join : list string -> string := Join.

(** ** Values shared with the collaborators *)

(** A Go [error] value: [nil], the sentinel [mgo.ErrNotFound], or a value
    made by [errors.New] / [fmt.Errorf], which is known by its message. The
    sentinel is compared by identity: an error that merely prints
    [not found] is not it. *)
Inductive error :=
  | nil
  | ErrNotFound
  | ErrorString (msg : string).

#[global] Instance error_eq_dec : EqDecision error.
Proof. solve_decision. Defined.

(** The [Error()] method, as the [%v] verb prints it. *)
Definition Error (e : error) : string :=
  match e with
  | nil => "<nil>"
  | ErrNotFound => "not found"
  | ErrorString msg => msg
  end.

Definition is_nil (e : error) : bool :=
  match e with nil => true | _ => false end.

(** [upstart.Service] and [upstart.Conf], with the fields this package sets. *)
Record Service := mkService { Name : string }.

Record Conf := mkConf {
  Svc : Service;                  (* the embedded Service *)
  Desc : string;
  Limit : gmap string string;
  Cmd : string }.

(** [mgo.DialInfo]: the dial parameters, passed through unread. *)
Record DialInfo := mkDialInfo {
  Addrs : list string;
  Timeout : Z;
  Username : string;
  Password : string }.

Record Session := mkSession { dialled : DialInfo }.

(** The replica-set configuration document the cluster keeps. *)
Record ReplConfig := mkReplConfig {
  rsName : string;
  rsMembers : list string }.

(** A file-system entry with its permission bits. *)
Inductive node :=
  | Dir (perm : Z)
  | File (perm : Z) (data : list Byte.byte).

(** An open file, [os.File]: a descriptor naming a path and an offset in
    the world's descriptor table. *)
Record OsFile := mkOsFile { fd : nat; fname : string }.

(** ** Operations and events *)

Inductive Op :=
  (* process supervisor *)
  | OpInstalled (name : string)
  | OpRunning (name : string)
  | OpInstall (c : Conf)
  | OpStart (name : string)
  | OpStopAndRemove (name : string)
  | OpStop (name : string)          (* the supervisor stops a running job *)
  | OpRemove (name : string)        (* the supervisor deletes a definition *)
  (* file system *)
  | OpStat (path : string)
  | OpLookPath (file : string)
  | OpMkdirAll (path : string) (perm : Z)
  | OpMkdir (path : string) (perm : Z)
  | OpOpenFile (path : string) (flag perm : Z)
  | OpWrite (path : string) (len : Z)
  | OpClose (path : string)
  (* network and database cluster *)
  | OpInterfaceAddrs
  | OpDial (info : DialInfo)
  | OpSessionClose
  | OpCurrentConfig
  | OpInitiate (address name : string).

Inductive Outcome :=
  | Ok
  | Failed (e : error)
  | Answer (b : bool).

Definition outcome_of (e : error) : Outcome :=
  match e with nil => Ok | _ => Failed e end.

Abbreviation Event := (Op * Outcome)%type.

(** ** The world *)

(** [faults] is the environment's say in what goes wrong: asked at step
    [tick] about an operation, it may make it fail with a message.  It is
    arbitrary, so a theorem over every world covers every pattern of
    failures. An injected failure is never the [ErrNotFound] sentinel: that
    one comes from the cluster having no configuration. *)
Record World := mkWorld {
  services : gmap string Conf;          (* installed service definitions *)
  running : gset string;                (* jobs the supervisor runs *)
  fs : gmap string node;                (* the file system, by clean path *)
  fdtable : gmap nat (string * nat);    (* open descriptors: path, offset *)
  search_path : list string;            (* the directories of $PATH *)
  rsconf : option ReplConfig;           (* the cluster's replica-set config *)
  faults : nat -> Op -> option string;
  tick : nat }.

Definition set_services (f : gmap string Conf -> gmap string Conf) (w : World) : World :=
  mkWorld (f (services w)) (running w) (fs w) (fdtable w) (search_path w) (rsconf w) (faults w) (tick w).

Definition set_running (f : gset string -> gset string) (w : World) : World :=
  mkWorld (services w) (f (running w)) (fs w) (fdtable w) (search_path w) (rsconf w) (faults w) (tick w).

Definition set_fs (f : gmap string node -> gmap string node) (w : World) : World :=
  mkWorld (services w) (running w) (f (fs w)) (fdtable w) (search_path w) (rsconf w) (faults w) (tick w).

Definition set_fdtable (f : gmap nat (string * nat) -> gmap nat (string * nat)) (w : World) : World :=
  mkWorld (services w) (running w) (fs w) (f (fdtable w)) (search_path w) (rsconf w) (faults w) (tick w).

Definition set_rsconf (c : option ReplConfig) (w : World) : World :=
  mkWorld (services w) (running w) (fs w) (fdtable w) (search_path w) c (faults w) (tick w).

Definition next_tick (w : World) : World :=
  mkWorld (services w) (running w) (fs w) (fdtable w) (search_path w) (rsconf w) (faults w) (S (tick w)).

(** ** The monad: state passing over the world, with a log of events *)

Record Res (A : Type) := mkRes { val : A; world : World; log : list Event }.
Arguments mkRes {A} _ _ _.
Arguments val {A} _.
Arguments world {A} _.
Arguments log {A} _.

Definition M (A : Type) : Type := World -> Res A.

Definition ret {A} (a : A) : M A := fun w => mkRes a w [].

Definition bind {A B} (m : M A) (k : A -> M B) : M B :=
  fun w =>
    let r := m w in
    let r' := k (val r) (world r) in
    mkRes (val r') (world r') (log r ++ log r').

#[global] Instance M_ret : MRet M := @ret.
#[global] Instance M_bind : MBind M := fun A B k m => bind m k.

Definition get : M World := fun w => mkRes w w [].

Definition modify (f : World -> World) : M unit := fun w => mkRes tt (f w) [].

(** Record an operation with its outcome; the step counter advances. *)
Definition emit (op : Op) (o : Outcome) : M unit :=
  fun w => mkRes tt (next_tick w) [(op, o)].

(** Ask the environment whether [op] fails now. *)
Definition fault (op : Op) : M (option string) :=
  fun w => mkRes (faults w (tick w) op) w [].


(** Log the outcome of a call and hand back its result. *)
Definition report {A} (op : Op) (e : error) (a : A) : M A :=
  emit op (outcome_of e);; mret a.

Definition answer (op : Op) (b : bool) : M bool :=
  emit op (Answer b);; mret b.

(** ** The Go library: [os], [os/exec], [net] *)

Module os.

Definition O_WRONLY : Z := 1.
Definition O_CREATE : Z := 64.
Definition O_TRUNC : Z := 512.

(** [os.Stat]. *)
Definition Stat (path : string) : M (option node * error) :=
  f ← fault (OpStat path);
  w ← get;
  match f, fs w !! path with
  | Some msg, _ => report (OpStat path) (ErrorString msg) (None, ErrorString msg)
  | None, Some n => report (OpStat path) nil (Some n, nil)
  | None, None =>
      let e := ErrorString ("stat " +:+ path +:+ ": no such file or directory") in
      report (OpStat path) e (None, e)
  end.

(** The prefixes of [rest] that [MkdirAll] treats as parents, outermost
    first: what precedes a slash that begins a path element, the root
    apart.  [pre] is the part already scanned. *)
Fixpoint parents_from (pre rest : string) : list string :=
  match rest with
  | EmptyString => []
  | String c rest' =>
      let here :=
        match rest' with
        | String d _ =>
            if Ascii.eqb c "/" && negb (Ascii.eqb d "/") && negb (String.eqb pre "")
            then [pre] else []
        | EmptyString => []
        end in
      here ++ parents_from (pre +:+ String c EmptyString) rest'
  end.

(** [os.Mkdir]: one directory, new. *)
Definition Mkdir (path : string) (perm : Z) : M error :=
  f ← fault (OpMkdir path perm);
  w ← get;
  match f, fs w !! path with
  | Some msg, _ => report (OpMkdir path perm) (ErrorString msg) (ErrorString msg)
  | None, Some _ =>
      let e := ErrorString ("mkdir " +:+ path +:+ ": file exists") in
      report (OpMkdir path perm) e e
  | None, None =>
      modify (set_fs (insert path (Dir perm)));;
      report (OpMkdir path perm) nil nil
  end.

(** [MkdirAll]'s recursion over [path], its parent, its grandparent, ...:
    an existing directory ends it with success, a file in the way with an
    error; otherwise the parents are made first, then the directory. *)
Fixpoint mkdir_chain (chain : list string) (perm : Z) : M error :=
  match chain with
  | [] => mret nil
  | p :: up =>
      w ← get;
      match fs w !! p with
      | Some (Dir _) => mret nil
      | Some (File _ _) => mret (ErrorString ("mkdir " +:+ p +:+ ": not a directory"))
      | None =>
          err ← mkdir_chain up perm;
          if is_nil err then Mkdir p perm else mret err
      end
  end.

(** [os.MkdirAll]: the directory and any missing parent are created with
    [perm]; a directory that is already there is left as it is. *)
Definition MkdirAll (path : string) (perm : Z) : M error :=
  err ← mkdir_chain (path :: rev (parents_from "" path)) perm;
  report (OpMkdirAll path perm) err err.

(** [os.OpenFile] for writing.  The new descriptor starts at offset 0. An
    entry's parent directory is not looked up. *)
Definition OpenFile (name : string) (flag perm : Z) : M (OsFile * error) :=
  let op := OpOpenFile name flag perm in
  f ← fault op;
  w ← get;
  let file := mkOsFile (fresh (dom (fdtable w))) name in
  let opened := modify (set_fdtable (insert (fd file) (name, 0%nat))) in
  match f, fs w !! name with
  | Some msg, _ => report op (ErrorString msg) (file, ErrorString msg)
  | None, Some (Dir _) =>
      let e := ErrorString ("open " +:+ name +:+ ": is a directory") in
      report op e (file, e)
  | None, Some (File p d) =>
      (if Z.testbit flag 9 then modify (set_fs (insert name (File p []))) else mret tt);;
      opened;; report op nil (file, nil)
  | None, None =>
      if Z.testbit flag 6
      then modify (set_fs (insert name (File perm [])));; opened;; report op nil (file, nil)
      else let e := ErrorString ("open " +:+ name +:+ ": no such file or directory") in
           report op e (file, e)
  end.

(** The bytes of a file after [b] is written at offset [off]. *)
Definition pwrite (d : list Byte.byte) (off : nat) (b : list Byte.byte) : list Byte.byte :=
  take off d ++ repeat Byte.x00 (off - length d) ++ b ++ drop (off + length b) d.

(** [File.Write]: all of [b] or an error. *)
Definition Write (f : OsFile) (b : list Byte.byte) : M (Z * error) :=
  let op := OpWrite (fname f) (Z.of_nat (length b)) in
  flt ← fault op;
  w ← get;
  match flt, fdtable w !! fd f with
  | Some msg, _ => report op (ErrorString msg) (0, ErrorString msg)
  | None, None =>
      let e := ErrorString ("write " +:+ fname f +:+ ": file already closed") in
      report op e (0, e)
  | None, Some (path, off) =>
      match fs w !! path with
      | Some (File p d) =>
          modify (set_fs (insert path (File p (pwrite d off b))));;
          modify (set_fdtable (insert (fd f) (path, (off + length b)%nat)));;
          report op nil (Z.of_nat (length b), nil)
      | _ =>
          let e := ErrorString ("write " +:+ fname f +:+ ": bad file descriptor") in
          report op e (0, e)
      end
  end.

(** [File.Close]: the descriptor is given up whether or not the close
    fails, so that the file cannot be closed again. *)
Definition Close (f : OsFile) : M error :=
  let op := OpClose (fname f) in
  flt ← fault op;
  w ← get;
  match fdtable w !! fd f with
  | Some _ =>
      modify (set_fdtable (delete (fd f)));;
      match flt with
      | Some msg => report op (ErrorString msg) (ErrorString msg)
      | None => report op nil nil
      end
  | None =>
      let e := ErrorString ("close " +:+ fname f +:+ ": file already closed") in
      report op e e
  end.

End os.

Module exec.

(** Whether [file] is there, is no directory and has an execute bit. *)
Definition findExecutable (w : World) (file : string) : bool :=
  match fs w !! file with
  | Some (File perm _) => negb (Z.land perm 73 =? 0)    (* 0111 *)
  | _ => false
  end.

(** [exec.LookPath]. *)
Definition LookPath (file : string) : M (string * error) :=
  w ← get;
  let notfound := ErrorString ("exec: " +:+ file +:+ ": executable file not found in $PATH") in
  if Contains file "/" then
    if findExecutable w file then report (OpLookPath file) nil (file, nil)
    else report (OpLookPath file) notfound ("", notfound)
  else
    let candidates :=
      map (fun dir => (if String.eqb dir "" then "." else dir) +:+ "/" +:+ file)
          (search_path w) in
    match List.find (findExecutable w) candidates with
    | Some path => report (OpLookPath file) nil (path, nil)
    | None => report (OpLookPath file) notfound ("", notfound)
    end.

End exec.

Module net.

(** [net.InterfaceAddrs], which may fail; the code only logs the addresses
    it returns. *)
Definition InterfaceAddrs : M (list string * error) :=
  f ← fault OpInterfaceAddrs;
  match f with
  | Some msg => report OpInterfaceAddrs (ErrorString msg) ([], ErrorString msg)
  | None => report OpInterfaceAddrs nil ([], nil)
  end.

End net.


(** ** The process supervisor: package [upstart] *)

Module upstart.

(** [upstart.NewService]. *)
Definition NewService (name : string) : Service := mkService name.

(** Modelled from the spec: the supervisor's check-installed of section 6;
    package upstart is not among the sources. *)
Definition Installed (s : Service) : M bool :=
  w ← get;
  answer (OpInstalled (Name s)) (bool_decide (is_Some (services w !! Name s))).

(** Modelled from the spec: the supervisor's check-running of section 6;
    package upstart is not among the sources. *)
Definition Running (s : Service) : M bool :=
  w ← get;
  answer (OpRunning (Name s)) (bool_decide (Name s ∈ running w)).

(** Modelled from the spec: install of section 6, which registers the
    definition under its name and is an error for a name already installed;
    package upstart is not among the sources. *)
Definition Install (c : Conf) : M error :=
  let name := Name (Svc c) in
  f ← fault (OpInstall c);
  w ← get;
  match f, services w !! name with
  | Some msg, _ => report (OpInstall c) (ErrorString msg) (ErrorString msg)
  | None, Some _ =>
      let e := ErrorString ("service " +:+ name +:+ " is already installed") in
      report (OpInstall c) e e
  | None, None =>
      modify (set_services (insert name c));;
      report (OpInstall c) nil nil
  end.

(** Modelled from the spec: start of section 6; package upstart is not among
    the sources. *)
Definition Start (s : Service) : M error :=
  f ← fault (OpStart (Name s));
  match f with
  | Some msg => report (OpStart (Name s)) (ErrorString msg) (ErrorString msg)
  | None =>
      modify (set_running (fun r => {[Name s]} ∪ r));;
      report (OpStart (Name s)) nil nil
  end.

(** Modelled from the spec: stop of section 6, the "stop if running" of
    section 4.3; package upstart is not among the sources. *)
Definition Stop (s : Service) : M error :=
  w ← get;
  if bool_decide (Name s ∈ running w) then
    f ← fault (OpStop (Name s));
    match f with
    | Some msg => report (OpStop (Name s)) (ErrorString msg) (ErrorString msg)
    | None =>
        modify (set_running (fun r => r ∖ {[Name s]}));;
        report (OpStop (Name s)) nil nil
    end
  else mret nil.

(** Modelled from the spec: stop-and-remove of sections 4.3 and 6: for a
    definition that is not installed a successful no-op; otherwise "stop if
    running", then "delete definition", either of which may fail; package
    upstart is not among the sources. *)
Definition StopAndRemove (s : Service) : M error :=
  let op := OpStopAndRemove (Name s) in
  w ← get;
  if bool_decide (is_Some (services w !! Name s)) then
    err ← Stop s;
    if negb (is_nil err) then report op err err else
    f ← fault (OpRemove (Name s));
    match f with
    | Some msg =>
        emit (OpRemove (Name s)) (Failed (ErrorString msg));;
        report op (ErrorString msg) (ErrorString msg)
    | None =>
        modify (set_services (delete (Name s)));;
        emit (OpRemove (Name s)) Ok;;
        report op nil nil
    end
  else report op nil nil.

End upstart.

(** ** The database cluster: packages [mgo] and [replicaset] *)

Module mgo.

(** [mgo.DialWithInfo]: a session, or the failure to reach the server. *)
Definition DialWithInfo (info : DialInfo) : M (Session * error) :=
  f ← fault (OpDial info);
  match f with
  | Some msg => report (OpDial info) (ErrorString msg) (mkSession info, ErrorString msg)
  | None => report (OpDial info) nil (mkSession info, nil)
  end.

(** [Session.Close]. *)
Definition Close (s : Session) : M unit :=
  emit OpSessionClose Ok.

End mgo.

Module replicaset.

(** Modelled from the spec: the cluster's config query of section 6, which
    returns config-or-not-found-or-error; package replicaset is not among
    the sources. *)
Definition CurrentConfig (s : Session) : M (option ReplConfig * error) :=
  f ← fault OpCurrentConfig;
  w ← get;
  match f, rsconf w with
  | Some msg, _ => report OpCurrentConfig (ErrorString msg) (None, ErrorString msg)
  | None, Some c => report OpCurrentConfig nil (Some c, nil)
  | None, None => report OpCurrentConfig ErrNotFound (None, ErrNotFound)
  end.

(** Modelled from the spec: the cluster's initiate of section 6, given a seed
    member address and a set name, returning success-or-error; by section 5
    a set that exists accepts no second initiate; package replicaset is not
    among the sources. *)
Definition Initiate (s : Session) (address name : string) : M error :=
  let op := OpInitiate address name in
  f ← fault op;
  w ← get;
  match f, rsconf w with
  | Some msg, _ => report op (ErrorString msg) (ErrorString msg)
  | None, Some _ =>
      let e := ErrorString "already initialized" in report op e e
  | None, None =>
      modify (set_rsconf (Some (mkReplConfig name [address])));;
      report op nil nil
  end.

End replicaset.

(** ** Package [mongo] *)

Section Mongo.

(** [utils.ShQuote], which quotes a string for the shell: package utils is
    not among the sources, and nothing here depends on how it quotes. *)
Variable ShQuote : string -> string.

(** The [%q] verb of [fmt], Go's quoted string; it only occurs in error
    messages. *)
Variable Quote : string -> string.

Definition maxFiles : Z := 65000.
Definition maxProcs : Z := 20000.

Definition replicaSetName : string := "juju".

Definition oldMongoServiceName : string := "juju-db".

(** The default path to the juju-specific mongod. *)
Definition JujuMongodPath : string := "/usr/lib/juju/bin/mongod".

(** The version of the upstart script that [mongoUpstartService] builds. *)
Definition mongoScriptVersion : Z := 2.

(** The executable path to run mongod on this machine: the juju-bundled
    one if it exists, otherwise the one on the path. *)
Definition MongodPath : M (string * error) :=
  '(_, err) ← os.Stat JujuMongodPath;
  if is_nil err then mret (JujuMongodPath, nil) else
  '(path, err) ← exec.LookPath "mongod";
  if negb (is_nil err) then mret ("", err) else
  mret (path, nil).

Definition makeServiceName (version : Z) : string :=
  "juju-db-v" +:+ itoa version.

(** The loop [for x := ...; x < curVersion; x++] of [removeOldMongoServices]
    with [n] rounds left to go. *)
Fixpoint removeOldVersions (n : nat) (x : Z) : M error :=
  match n with
  | O => mret nil
  | S n' =>
      let old := upstart.NewService (makeServiceName x) in
      err ← upstart.StopAndRemove old;
      if negb (is_nil err) then mret err else
      removeOldVersions n' (x + 1)
  end.

(** Looks for any old juju mongo upstart scripts and removes them. The new
    formatting for the script name started at version 2, so the loop runs
    from 2 up to [curVersion], [curVersion - 2] times if that many. *)
Definition removeOldMongoServices (curVersion : Z) : M error :=
  let old := upstart.NewService oldMongoServiceName in
  err ← upstart.StopAndRemove old;
  if negb (is_nil err) then mret err else
  removeOldVersions (Z.to_nat (curVersion - 2)) 2.

(** The upstart config for the mongo state service. *)
Definition mongoUpstartService (name dataDir dbDir : string) (port : Z) : Conf * error :=
  let keyFile := Join [dataDir; "server.pem"] in
  let svc := upstart.NewService name in
  let conf :=
    {| Svc := svc;
       Desc := "juju state database";
       Limit := {[ "nofile" := itoa maxFiles +:+ " " +:+ itoa maxFiles;
                   "nproc" := itoa maxProcs +:+ " " +:+ itoa maxProcs ]};
       Cmd := "/usr/bin/mongod" +:+
              " --auth" +:+
              " --dbpath=" +:+ dbDir +:+
              " --sslOnNormalPorts" +:+
              " --sslPEMKeyFile " +:+ ShQuote keyFile +:+
              " --sslPEMKeyPassword ignored" +:+
              " --bind_ip 0.0.0.0" +:+
              " --port " +:+ itoa port +:+
              " --noprealloc" +:+
              " --syslog" +:+
              " --smallfiles" +:+
              " --replSet " +:+ replicaSetName |} in
  (conf, nil).

(** The inner loop of [makeJournalDirs]: write [zeroes] until [total]
    reaches 1 MiB.  [fuel] bounds the rounds; [None] is a loop that did not
    finish within them. *)
Fixpoint writeZeroes (fuel : nat) (f : OsFile) (zeroes : list Byte.byte)
    (filename : string) (total : Z) : M (option error) :=
  if total <? 1024 * 1024 then
    match fuel with
    | O => mret None
    | S fuel' =>
        '(n, err) ← os.Write f zeroes;
        if negb (is_nil err) then
          mret (Some (ErrorString ("failed to write to mongo prealloc file " +:+
                                   Quote filename +:+ ": " +:+ Error err)))
        else writeZeroes fuel' f zeroes filename (total + n)
    end
  else mret (Some nil).

(** The outer loop of [makeJournalDirs], with [n] files left to create from
    ordinal [x] on.  Every file opened is handed back for its deferred
    [Close], the last opened first. *)
Fixpoint preallocFiles (n : nat) (x : Z) (journalDir : string)
    (zeroes : list Byte.byte) (deferred : list OsFile) : M (option error * list OsFile) :=
  match n with
  | O => mret (Some nil, deferred)
  | S n' =>
      let name := "prealloc." +:+ itoa x in
      let filename := filepath_Join [journalDir; name] in
      '(f, err) ← os.OpenFile filename
                    (Z.lor (Z.lor os.O_WRONLY os.O_CREATE) os.O_TRUNC) 448;
      if negb (is_nil err) then
        mret (Some (ErrorString ("failed to open mongo prealloc file " +:+
                                 Quote filename +:+ ": " +:+ Error err)), deferred)
      else
        let deferred := f :: deferred in
        r ← writeZeroes 16 f zeroes filename 0;
        match r with
        | Some nil => preallocFiles n' (x + 1) journalDir zeroes deferred
        | other => mret (other, deferred)
        end
  end.

(** The [defer f.Close()] calls, run when the function returns. *)
Fixpoint closeDeferred (deferred : list OsFile) : M unit :=
  match deferred with
  | [] => mret tt
  | f :: rest => os.Close f;; closeDeferred rest
  end.

(** Creates the journal directory and, by hand, the prealloc files, which
    mongod would otherwise create as 100M files.  Mode 0700 is 448. *)
Definition makeJournalDirs (dir : string) : M (option error) :=
  let journalDir := Join [dir; "journal"] in
  err ← os.MkdirAll journalDir 448;
  if negb (is_nil err) then mret (Some err) else
  let zeroes := repeat Byte.x00 (Z.to_nat (64 * 1024)) in
  '(r, deferred) ← preallocFiles 3 0 journalDir zeroes [];
  closeDeferred deferred;;
  mret r.

(** Checks for an existing mongo configuration using [CurrentConfig]; if
    none is found one is created using [Initiate]. *)
Definition initiateReplicaSet (address : string) (port : Z) (info : DialInfo) : M error :=
  '(addrs, _) ← net.InterfaceAddrs;
  '(session, err) ← mgo.DialWithInfo info;
  if negb (is_nil err) then
    mret (ErrorString ("can't dial mongo to initiate replicaset: " +:+ Error err))
  else
  r ← ('(_, err) ← replicaset.CurrentConfig session;
       match err with
       | ErrNotFound =>
           let address := address +:+ ":" +:+ itoa port in
           err ← replicaset.Initiate session address replicaSetName;
           if negb (is_nil err) then
             mret (ErrorString ("error from mongo initiate: " +:+ Error err))
           else mret nil
       | nil => mret nil
       | _ => mret (ErrorString ("error getting replicaset config: " +:+ Error err))
       end);
  mgo.Close session;;                                  (* defer session.Close() *)
  mret r.

(** [ensureMongoServer] with the script version as an argument: the body
    below is the source's, with [version] where it reads the constant
    [mongoScriptVersion].  [None] is the journal loop out of fuel. *)
Definition ensureMongoServerAt (version : Z) (address dataDir : string) (port : Z)
    (info : DialInfo) : M (option error) :=
  let dbDir := filepath_Join [dataDir; "db"] in
  let name := makeServiceName version in
  err ← removeOldMongoServices version;
  if negb (is_nil err) then mret (Some err) else
  let '(service, err) := mongoUpstartService name dataDir dbDir port in
  if negb (is_nil err) then mret (Some err) else
  installed ← upstart.Installed (Svc service);
  r ← (if negb installed then
         jr ← makeJournalDirs dbDir;
         match jr with
         | Some nil =>
             err ← upstart.Install service;
             if negb (is_nil err) then
               mret (Some (ErrorString ("failed to install mongo service " +:+
                                        Quote (Name (Svc service)) +:+ ": " +:+ Error err)))
             else mret (Some nil)
         | Some err =>
             mret (Some (ErrorString ("Error creating journal directories: " +:+ Error err)))
         | None => mret None
         end
       else mret (Some nil));
  match r with
  | Some nil =>
      isRunning ← upstart.Running (Svc service);
      err ← (if negb isRunning then
               err ← upstart.Start (Svc service);
               if negb (is_nil err) then
                 mret (ErrorString ("failed to start " +:+ Quote name +:+
                                    " service: " +:+ Error err))
               else mret nil
             else mret nil);
      if negb (is_nil err) then mret (Some err) else
      err ← initiateReplicaSet address port info;
      if negb (is_nil err) then
        mret (Some (ErrorString ("failed to initiate mongo replicaset: " +:+ Error err)))
      else mret (Some nil)
  | other => mret other
  end.

(** Ensures that the correct mongo upstart script is installed and running,
    removing old versions of the script as necessary before installing the
    new one. *)
Definition ensureMongoServer : string -> string -> Z -> DialInfo -> M (option error) :=
  ensureMongoServerAt mongoScriptVersion.

(** Stops and removes Juju's mongo upstart service. *)
Definition RemoveService : M error :=
  let svc := upstart.NewService (makeServiceName mongoScriptVersion) in
  upstart.StopAndRemove svc.

(** ** Reading a log *)

(** The events of [l] whose operation satisfies [p]. *)
Definition ops_where (p : Op -> bool) (l : list Event) : list Event :=
  List.filter (fun ev => p (fst ev)) l.

Definition is_install (op : Op) : bool :=
  match op with OpInstall _ => true | _ => false end.

Definition is_start (op : Op) : bool :=
  match op with OpStart _ => true | _ => false end.

Definition is_initiate (op : Op) : bool :=
  match op with OpInitiate _ _ => true | _ => false end.

Definition is_query (op : Op) : bool :=
  match op with OpCurrentConfig => true | _ => false end.

Definition is_dial (op : Op) : bool :=
  match op with OpDial _ => true | _ => false end.

(** A stop-and-remove request, whatever comes of it. *)
Definition is_removal_request (op : Op) : bool :=
  match op with OpStopAndRemove _ => true | _ => false end.

(** The supervisor stopping a job or deleting a definition. *)
Definition is_removal (op : Op) : bool :=
  match op with OpStop _ | OpRemove _ => true | _ => false end.

(** Creating a directory, opening or writing a file. *)
Definition is_journal_op (op : Op) : bool :=
  match op with
  | OpMkdirAll _ _ | OpMkdir _ _ | OpOpenFile _ _ _ | OpWrite _ _ => true
  | _ => false
  end.

(** What [MongodPath] does: stat a path, search the path. *)
Definition is_path_lookup (op : Op) : bool :=
  match op with OpStat _ | OpLookPath _ => true | _ => false end.

Definition failed (ev : Event) : bool :=
  match snd ev with Failed _ => true | _ => false end.




(** ** Specifications *)

(** [post m w Q]: running [m] from [w] ends with a value, a world and a
    log that satisfy [Q]. *)
Definition post {A} (m : M A) (w : World) (Q : A -> World -> list Event -> Prop) : Prop :=
  Q (val (m w)) (world (m w)) (log (m w)).

(** Every operation of the log is of kind [q]. *)
Definition only (q : Op -> bool) (l : list Event) : Prop :=
  forallb (fun ev => q (fst ev)) l = true.

(** Requests to remove a definition and what the supervisor does for them. *)
Definition is_removal_op (op : Op) : bool :=
  is_removal_request op || is_removal op.

(** The definitions [removeOldMongoServices] goes after: the old name, and
    the versioned names from 2 up to the current version. *)
Definition is_legacy_name (curVersion : Z) (nm : string) : Prop :=
  nm = oldMongoServiceName \/ exists v, 2 <= v < curVersion /\ nm = makeServiceName v.

(** What the file system is asked to do. *)
Definition is_file_op (op : Op) : bool :=
  match op with
  | OpMkdirAll _ _ | OpMkdir _ _ | OpOpenFile _ _ _ | OpWrite _ _ | OpClose _ => true
  | _ => false
  end.

(** What the network and the database cluster are asked to do. *)
Definition is_network_op (op : Op) : bool :=
  match op with
  | OpInterfaceAddrs | OpDial _ | OpSessionClose | OpCurrentConfig | OpInitiate _ _ => true
  | _ => false
  end.

Definition install_failed (ev : Event) : bool := is_install (fst ev) && failed ev.

Definition dial_failed (ev : Event) : bool := is_dial (fst ev) && failed ev.

(** The supervisor and the cluster are as they were. *)
Definition same_services (w w' : World) : Prop :=
  services w' = services w /\ running w' = running w /\ rsconf w' = rsconf w.

(** The supervisor and the file system are as they were. *)
Definition same_node (w w' : World) : Prop :=
  services w' = services w /\ running w' = running w /\
  fs w' = fs w /\ fdtable w' = fdtable w.

Definition is_write (op : Op) : bool :=
  match op with OpWrite _ _ => true | _ => false end.

(** The path of the preallocation file with ordinal [v] in [journalDir]. *)
Definition prealloc_path (journalDir : string) (v : Z) : string :=
  journalDir +:+ "/" +:+ ("prealloc." +:+ itoa v).

(** A string without a slash. *)
Fixpoint no_slash (s : string) : bool :=
  match s with
  | EmptyString => true
  | String c s' => negb (Ascii.eqb c "/") && no_slash s'
  end.

(** A plain file name: one path element that names an entry. *)
Definition plain (n : string) : bool :=
  negb (String.eqb n "") && negb (String.eqb n ".") && negb (String.eqb n "..") &&
  no_slash n.

(** The elements [path.Clean] keeps of a path, the last one first. *)
Definition stack_of (path : string) : list string :=
  fold_left (clean_step (HasPrefix path "/")) (split_slash path) [].

(** The path [path.Clean] writes for the elements it kept. *)
Definition render (rooted : bool) (stack : list string) : string :=
  (if rooted then "/" else "") +:+ strings_Join (rev stack) "/".

(** Every element of the stack is one that [path.Clean], coming to it with
    the elements below it kept, would keep. *)
Fixpoint kept (rooted : bool) (stack : list string) : Prop :=
  match stack with
  | [] => True
  | e :: below =>
      kept rooted below /\ clean_step rooted below e = e :: below /\ no_slash e = true
  end.

Definition is_mkdir (op : Op) : bool :=
  match op with OpMkdirAll _ _ | OpMkdir _ _ => true | _ => false end.

Definition is_close (op : Op) : bool :=
  match op with OpClose _ => true | _ => false end.

(** The definition an event stops, deletes or asks to remove. *)
Definition removal_target (op : Op) : option string :=
  match op with
  | OpStopAndRemove n | OpStop n | OpRemove n => Some n
  | _ => None
  end.

(** The node is converged for [version]: its definition is installed, the
    job runs and the replica set has a configuration. *)
Definition converged (version : Z) (w : World) : Prop :=
  is_Some (services w !! makeServiceName version) /\
  makeServiceName version ∈ running w /\
  rsconf w <> None.

(** ** Sample nodes *)

(** A quoting function to run the code with. *)
Definition quoted (s : string) : string := "'" +:+ s +:+ "'".

(** An environment in which nothing fails. *)
Definition no_faults : nat -> Op -> option string := fun _ _ => None.

(** An environment in which the operations that [p] selects fail. *)
Definition faults_on (p : Op -> bool) (msg : string) : nat -> Op -> option string :=
  fun _ op => if p op then Some msg else None.

(** A fresh node: the data directory is there and empty, no service is
    installed, the replica set has never been initiated. *)
Definition fresh_node (faults : nat -> Op -> option string) : World :=
  {| services := ∅; running := ∅;
     fs := {[ "/var/lib/x" := Dir 493 ]}; fdtable := ∅;
     search_path := ["/usr/bin"]; rsconf := None;
     faults := faults; tick := 0 |}.

Definition sample_info : DialInfo :=
  {| Addrs := ["127.0.0.1:37017"]; Timeout := 30; Username := "admin"; Password := "secret" |}.

(** ** Directory listings *)

(** What is left of [s] after the prefix [pre], if it starts with it. *)
Fixpoint strip_prefix (pre s : string) {struct pre} : option string :=
  match pre, s with
  | EmptyString, _ => Some s
  | String c pre', String d s' => if Ascii.eqb c d then strip_prefix pre' s' else None
  | String _ _, EmptyString => None
  end.

(** The name under which the path [k] is an entry of the directory [dir]. *)
Definition child_name (dir k : string) : option string :=
  match strip_prefix (dir +:+ "/") k with
  | Some n => if negb (String.eqb n "") && no_slash n then Some n else None
  | None => None
  end.

(** The names of the entries of a directory. *)
Definition entries (w : World) (dir : string) : gset string :=
  set_omap (child_name dir) (dom (fs w)).

(** The journal preallocator's contract as the specification words it for
    every data directory: after a success the journal directory has mode
    0700 and holds exactly the three preallocation files, each of at least
    1 MiB of zero bytes. *)
Definition prealloc_claim (dir : string) (w : World) : Prop :=
  val (makeJournalDirs dir w) = Some nil ->
  fs (world (makeJournalDirs dir w)) !! Join [dir; "journal"] = Some (Dir 448) /\
  entries (world (makeJournalDirs dir w)) (Join [dir; "journal"]) =
    {[ "prealloc.0"; "prealloc.1"; "prealloc.2" ]} /\
  forall v, 0 <= v < 3 ->
    exists p d,
      fs (world (makeJournalDirs dir w)) !! prealloc_path (Join [dir; "journal"]) v =
        Some (File p d) /\
      (Z.to_nat (1024 * 1024) <= length d)%nat /\
      Forall (eq Byte.x00) d.

(** A node whose database has been running: the journal directory is there
    with mode 0755 and holds a journal file. *)
Definition used_node : World :=
  {| services := ∅; running := ∅;
     fs := {[ "/var/lib/x" := Dir 493;
              "/var/lib/x/db" := Dir 493;
              "/var/lib/x/db/journal" := Dir 493;
              "/var/lib/x/db/journal/j._0" := File 384 [] ]};
     fdtable := ∅; search_path := ["/usr/bin"]; rsconf := None;
     faults := no_faults; tick := 0 |}.

(** The mode and the size of the file at [path], if it is a file of zero
    bytes only. *)
Definition zero_filled (w : World) (path : string) : option (Z * N) :=
  match fs w !! path with
  | Some (File p d) =>
      if forallb (Byte.eqb Byte.x00) d then Some (p, N.of_nat (length d)) else None
  | _ => None
  end.

Definition is_open (op : Op) : bool :=
  match op with OpOpenFile _ _ _ => true | _ => false end.

(** A definition such as an earlier version of the agent installed. *)
Definition legacy_conf (name : string) : Conf :=
  {| Svc := mkService name; Desc := "juju state database"; Limit := ∅;
     Cmd := "/usr/bin/mongod --auth" |}.

(** A node upgraded twice: the definitions of the old name and of versions 2
    and 3 are installed, the last one running. *)
Definition legacy_node : World :=
  {| services := {[ "juju-db" := legacy_conf "juju-db";
                    "juju-db-v2" := legacy_conf "juju-db-v2";
                    "juju-db-v3" := legacy_conf "juju-db-v3" ]};
     running := {[ "juju-db-v3" ]};
     fs := {[ "/var/lib/x" := Dir 493 ]}; fdtable := ∅;
     search_path := ["/usr/bin"]; rsconf := None;
     faults := no_faults; tick := 0 |}.

(** A node on which the current definition is installed. *)
Definition installed_node : World :=
  {| services := {[ "juju-db-v2" := legacy_conf "juju-db-v2" ]};
     running := ∅;
     fs := {[ "/var/lib/x" := Dir 493 ]}; fdtable := ∅;
     search_path := ["/usr/bin"]; rsconf := None;
     faults := no_faults; tick := 0 |}.

(** ** The scenario as the specification words it *)

(** The first expectation of the end-to-end scenario: no legacy removal is
    attempted.  An attempt is a call of the supervisor's stop-and-remove,
    as an install, a start, a config query and an initiate are calls. *)
Definition no_removal_attempted (l : list Event) : Prop :=
  ops_where is_removal_request l = [].

(** ** More readers of a log *)

(** The candidate [LookPath] tries for [file] in the directory [dir] of the
    search path: an empty directory stands for the current one. *)
Definition path_entry (dir file : string) : string :=
  (if String.eqb dir "" then "." else dir) +:+ "/" +:+ file.

(** The names [removeOldMongoServices] asks to remove, in the order of its
    requests: the old name, then the versions from 2 up to the current one. *)
Definition legacy_names (curVersion : Z) : list string :=
  oldMongoServiceName :: map makeServiceName (seqZ 2 (curVersion - 2)).

(** A stop-and-remove request that succeeded. *)
Definition removed (nm : string) : Event := (OpStopAndRemove nm, Ok).

(** The stop-and-remove requests of a run over [names] that returned
    [err]: all of them, each a success, when [err] is nil; otherwise those
    up to the first one that failed, which failed with [err]. *)
Definition requests_of (names : list string) (err : error) (l : list Event) : Prop :=
  (err = nil /\ ops_where is_removal_request l = map removed names) \/
  (err <> nil /\ exists gone nm rest,
     names = gone ++ nm :: rest /\
     ops_where is_removal_request l = map removed gone ++ [(OpStopAndRemove nm, Failed err)]).

Definition is_session_close (op : Op) : bool :=
  match op with OpSessionClose => true | _ => false end.

(** The [Close] that a successful [OpenFile] defers. *)
Definition close_of (ev : Event) : list Op :=
  match ev with
  | (OpOpenFile name _ _, Ok) => [OpClose name]
  | _ => []
  end.

(** The deferred closes of a log, run when the function returns: one for
    each file opened, the last opened first. *)
Definition deferred_closes (l : list Event) : list Op :=
  rev (flat_map close_of l).

(** Closing [f]. *)
Definition closing (f : OsFile) : Op := OpClose (fname f).

(** The descriptor table after the files of [deferred] are closed. *)
Definition close_all (deferred : list OsFile) (t : gmap nat (string * nat)) :
    gmap nat (string * nat) :=
  fold_left (fun t f => delete (fd f) t) deferred t.

(** The config query that finds no configuration: an answer the code acts
    on, not a failure. *)
Definition not_found_answer (ev : Event) : bool :=
  match ev with
  | (OpCurrentConfig, Failed ErrNotFound) => true
  | _ => false
  end.

(** The operations whose error the code drops: the deferred [f.Close()] of
    [makeJournalDirs], whose result nothing looks at, and the listing of the
    interfaces in [initiateReplicaSet], whose error goes to the blank
    identifier. *)
Definition discarded (op : Op) : bool :=
  match op with OpClose _ | OpInterfaceAddrs => true | _ => false end.

(** An operation that failed and whose failure the code looks at. *)
Definition went_wrong (ev : Event) : bool :=
  failed ev && negb (not_found_answer ev) && negb (discarded (fst ev)).

(** The configuration of a replica set initiated with this node as its
    seed member. *)
Definition seed_config (address : string) (port : Z) : ReplConfig :=
  {| rsName := replicaSetName; rsMembers := [address +:+ ":" +:+ itoa port] |}.

(** The steps of a convergence pass, in the order of the source: legacy
    removal, the installed? test, the journal directory, the preallocation
    files, their deferred closes, the install, the running? test, the start,
    the interface listing, the dial, the config query, the initiate and the
    deferred close of the session.  [MongodPath] has the last number. *)
Definition phase (op : Op) : nat :=
  match op with
  | OpStopAndRemove _ | OpStop _ | OpRemove _ => 0
  | OpInstalled _ => 1
  | OpMkdirAll _ _ | OpMkdir _ _ => 2
  | OpOpenFile _ _ _ | OpWrite _ _ => 3
  | OpClose _ => 4
  | OpInstall _ => 5
  | OpRunning _ => 6
  | OpStart _ => 7
  | OpInterfaceAddrs => 8
  | OpDial _ => 9
  | OpCurrentConfig => 10
  | OpInitiate _ _ => 11
  | OpSessionClose => 12
  | OpStat _ | OpLookPath _ => 13
  end%nat.

(** Opening or writing a preallocation file. *)
Definition is_prealloc (op : Op) : bool := is_open op || is_write op.

(** No operation of the log belongs to an earlier step than one before it. *)
Fixpoint in_order (l : list Event) : Prop :=
  match l with
  | [] => True
  | a :: rest =>
      Forall (fun b => (phase (fst a) <= phase (fst b))%nat) rest /\ in_order rest
  end.

(** A log in order whose steps lie between [lo] and [hi]. *)
Definition staged (lo hi : nat) (l : list Event) : Prop :=
  in_order l /\ Forall (fun ev => (lo <= phase (fst ev) <= hi)%nat) l.

(** ** More sample nodes *)

(** A node with the juju-bundled mongod, and another one on the path. *)
Definition bundled_node : World :=
  {| services := ∅; running := ∅;
     fs := {[ "/usr/lib/juju/bin/mongod" := File 493 [];
              "/usr/bin/mongod" := File 493 [] ]};
     fdtable := ∅; search_path := ["/usr/local/bin"; "/usr/bin"]; rsconf := None;
     faults := no_faults; tick := 0 |}.

(** A node without the bundled mongod: the first directory of the path
    holds a file of that name that is not executable, the second one the
    executable. *)
Definition path_node : World :=
  {| services := ∅; running := ∅;
     fs := {[ "/usr/local/bin/mongod" := File 420 [];
              "/usr/bin/mongod" := File 493 [] ]};
     fdtable := ∅; search_path := ["/usr/local/bin"; "/usr/bin"]; rsconf := None;
     faults := no_faults; tick := 0 |}.

(** Creating one directory. *)
Definition is_mkdir_one (op : Op) : bool :=
  match op with OpMkdir _ _ => true | _ => false end.

(** A node on which a file is in the way of the database directory. *)
Definition blocked_node : World :=
  {| services := ∅; running := ∅;
     fs := {[ "/var/lib/x" := Dir 493; "/var/lib/x/db" := File 420 [] ]};
     fdtable := ∅; search_path := ["/usr/bin"]; rsconf := None;
     faults := no_faults; tick := 0 |}.

(** * Properties *)

(** ** The monad *)

Lemma bind_val {A B} (m : M A) (k : A -> M B) (w : World) :
  val ((m ≫= k) w) = val (k (val (m w)) (world (m w))).
Proof. reflexivity. Qed.

Lemma bind_world {A B} (m : M A) (k : A -> M B) (w : World) :
  world ((m ≫= k) w) = world (k (val (m w)) (world (m w))).
Proof. reflexivity. Qed.

Lemma bind_log {A B} (m : M A) (k : A -> M B) (w : World) :
  log ((m ≫= k) w) = log (m w) ++ log (k (val (m w)) (world (m w))).
Proof. reflexivity. Qed.

Lemma post_bind {A B} (m : M A) (k : A -> M B) (w : World) Q :
  post m w (fun a w1 l1 => post (k a) w1 (fun b w2 l2 => Q b w2 (l1 ++ l2))) ->
  post (m ≫= k) w Q.
Proof. intros H. exact H. Qed.

Lemma post_ret {A} (a : A) (w : World) Q : Q a w [] -> post (mret a) w Q.
Proof. intros H. exact H. Qed.

Lemma post_get (w : World) Q : Q w w [] -> post get w Q.
Proof. intros H. exact H. Qed.

Lemma post_modify (f : World -> World) (w : World) Q : Q tt (f w) [] -> post (modify f) w Q.
Proof. intros H. exact H. Qed.

Lemma post_emit (op : Op) (o : Outcome) (w : World) Q :
  Q tt (next_tick w) [(op, o)] -> post (emit op o) w Q.
Proof. intros H. exact H. Qed.

Lemma post_fault (op : Op) (w : World) Q :
  Q (faults w (tick w) op) w [] -> post (fault op) w Q.
Proof. intros H. exact H. Qed.

Lemma post_report {A} (op : Op) (e : error) (a : A) (w : World) Q :
  Q a (next_tick w) [(op, outcome_of e)] -> post (report op e a) w Q.
Proof. intros H. exact H. Qed.

Lemma post_answer (op : Op) (b : bool) (w : World) Q :
  Q b (next_tick w) [(op, Answer b)] -> post (answer op b) w Q.
Proof. intros H. exact H. Qed.

Lemma post_mono {A} (m : M A) (w : World) (Q Q' : A -> World -> list Event -> Prop) :
  post m w Q -> (forall a w' l, Q a w' l -> Q' a w' l) -> post m w Q'.
Proof. intros H HQ. apply HQ, H. Qed.

(** One step of a run: split a bind, run a primitive. *)
Ltac wp_step :=
  lazymatch goal with
  | |- post (mbind _ _) _ _ => apply post_bind
  | |- post (mret _) _ _ => apply post_ret
  | |- post get _ _ => apply post_get
  | |- post (modify _) _ _ => apply post_modify
  | |- post (emit _ _) _ _ => apply post_emit
  | |- post (fault _) _ _ => apply post_fault
  | |- post (report _ _ _) _ _ => apply post_report
  | |- post (answer _ _) _ _ => apply post_answer
  | |- post (match ?x with _ => _ end) _ _ => destruct x eqn:?
  | |- post (if ?x then _ else _) _ _ => destruct x eqn:?
  end.

Ltac wp := repeat (wp_step; cbn beta iota zeta delta [negb is_nil fst snd]).

(** Project the fields out of an updated world. *)
Ltac world_simpl :=
  cbn [services running fs fdtable search_path rsconf faults tick
       set_services set_running set_fs set_fdtable set_rsconf next_tick] in *.

(** Turn the boolean tests of the code into propositions. *)
Ltac bools :=
  repeat match goal with
  | H : bool_decide _ = true |- _ => rewrite bool_decide_eq_true in H
  | H : bool_decide _ = false |- _ => rewrite bool_decide_eq_false in H
  end.

(** A lookup that both is and is not there. *)
Ltac absurd_lookup :=
  match goal with
  | H : is_Some ?x, H' : ?x = None |- _ => rewrite H' in H; destruct H; discriminate
  | H : ¬ is_Some ?x, H' : ?x = Some _ |- _ => rewrite H' in H; destruct H; eauto
  end.

(** ** Logs *)

Lemma only_nil q : only q [].
Proof. reflexivity. Qed.

Lemma only_app q l1 l2 : only q l1 -> only q l2 -> only q (l1 ++ l2).
Proof. unfold only. rewrite forallb_app. intros H1 H2. rewrite H1, H2. reflexivity. Qed.

Lemma only_cons q ev l : q (fst ev) = true -> only q l -> only q (ev :: l).
Proof. unfold only. simpl. intros H1 H2. rewrite H1, H2. reflexivity. Qed.

Lemma only_snoc q l op o : only q l -> q op = true -> only q (l ++ [(op, o)]).
Proof. intros H Hq. apply only_app; [exact H|]. apply only_cons; [exact Hq|apply only_nil]. Qed.

Lemma only_weaken (q q' : Op -> bool) l :
  (forall op, q op = true -> q' op = true) -> only q l -> only q' l.
Proof.
  unfold only. intros Hq. rewrite !forallb_forall. intros H ev Hin. apply Hq, H, Hin.
Qed.

(** A log of [q]-operations has no event that [p] selects, when [p] and
    [q] exclude each other. *)
Lemma filter_only (q : Op -> bool) (p : Event -> bool) l :
  only q l -> (forall ev, q (fst ev) = true -> p ev = false) -> List.filter p l = [].
Proof.
  unfold only. induction l as [|ev l IH]; simpl; [reflexivity|].
  intros H Hpq. apply andb_true_iff in H as [H1 H2].
  rewrite (Hpq ev H1). apply IH; assumption.
Qed.

Lemma ops_where_app p l1 l2 : ops_where p (l1 ++ l2) = ops_where p l1 ++ ops_where p l2.
Proof. apply List.filter_app. Qed.

Lemma ops_where_only (q p : Op -> bool) l :
  only q l -> (forall op, q op = true -> p op = false) -> ops_where p l = [].
Proof. intros H Hpq. apply (filter_only q); [exact H|]. intros ev. apply Hpq. Qed.

(** ** The supervisor *)

Lemma StopAndRemove_spec (s : Service) (w : World) :
  post (upstart.StopAndRemove s) w (fun v w' l =>
    only is_removal_op l /\
    Forall (fun ev => removal_target (fst ev) = Some (Name s)) l /\
    fs w' = fs w /\ fdtable w' = fdtable w /\ rsconf w' = rsconf w /\
    (forall n, n <> Name s -> services w' !! n = services w !! n) /\
    (forall n, n <> Name s -> n ∈ running w' <-> n ∈ running w) /\
    (forall n, services w !! n = None -> services w' !! n = None) /\
    (v = nil -> services w' !! Name s = None) /\
    (services w !! Name s = None ->
       v = nil /\ l = [(OpStopAndRemove (Name s), Ok)] /\
       services w' = services w /\ running w' = running w) /\
    ops_where is_removal_request l = [(OpStopAndRemove (Name s), outcome_of v)]).
Proof.
  unfold upstart.StopAndRemove, upstart.Stop.
  wp; bools; world_simpl; simpl.
  all: repeat split; intros; try done; try absurd_lookup.
  all: try (repeat constructor; fail).
  all: try (rewrite lookup_delete_ne by done; done).
  all: try (rewrite lookup_delete_eq; done).
  all: try (apply lookup_delete_None; auto; fail).
  all: try (apply eq_None_not_Some; assumption).
  all: set_solver.
Qed.

(** ** The legacy service migrator *)

Lemma removeOldVersions_spec (n : nat) : forall (x : Z) (w : World),
  post (removeOldVersions n x) w (fun err w' l =>
    only is_removal_op l /\
    Forall (fun ev => exists v, x <= v < x + Z.of_nat n /\
                                removal_target (fst ev) = Some (makeServiceName v)) l /\
    fs w' = fs w /\ fdtable w' = fdtable w /\ rsconf w' = rsconf w /\
    (forall nm, (forall v, x <= v < x + Z.of_nat n -> nm <> makeServiceName v) ->
                services w' !! nm = services w !! nm /\
                (nm ∈ running w' <-> nm ∈ running w)) /\
    (forall nm, services w !! nm = None -> services w' !! nm = None) /\
    (err = nil -> forall v, x <= v < x + Z.of_nat n ->
                  services w' !! makeServiceName v = None)).
Proof.
  induction n as [|n IH]; intros x w.
  - apply post_ret. repeat split; intros; try done; lia.
  - cbn [removeOldVersions]. apply post_bind.
    eapply post_mono; [apply StopAndRemove_spec|].
    cbn [upstart.NewService Name].
    intros err w1 l1 (Ho & Hreq & Hfs & Hfd & Hrs & Hsv & Hrun & Hmono & Hgone & _).
    destruct err; cbn beta iota zeta delta [negb is_nil].
    + eapply post_mono; [apply IH|].
      intros err w2 l2 (Ho2 & Hreq2 & Hfs2 & Hfd2 & Hrs2 & Hframe2 & Hmono2 & Hgone2).
      split; [by apply only_app|].
      split.
      { apply Forall_app. split.
        - eapply Forall_impl; [exact Hreq|].
          intros ev Hev. exists x. split; [lia|done].
        - eapply Forall_impl; [exact Hreq2|].
          intros ev (v & Hv & Hev). exists v. split; [lia|done]. }
      repeat split; try congruence.
      * destruct (Hframe2 nm) as [-> _]; [intros; apply H; lia|].
        apply Hsv, H. lia.
      * intros Hin. apply Hframe2 in Hin; [|intros; apply H; lia].
        apply Hrun in Hin; [done|]. apply H. lia.
      * intros Hin. apply Hframe2; [intros; apply H; lia|].
        apply Hrun; [|done]. apply H. lia.
      * intros nm Hnm. apply Hmono2, Hmono, Hnm.
      * intros -> v Hv. destruct (decide (v = x)) as [->|Hne].
        -- apply Hmono2, Hgone. done.
        -- apply Hgone2; [done|lia].
    + apply post_ret. rewrite app_nil_r.
      split; [done|]. split.
      { eapply Forall_impl; [exact Hreq|]. intros ev Hev. exists x. split; [lia|done]. }
      repeat split; try done.
      * apply Hsv, H. lia.
      * apply Hrun, H. lia.
      * apply Hrun, H. lia.
    + apply post_ret. rewrite app_nil_r.
      split; [done|]. split.
      { eapply Forall_impl; [exact Hreq|]. intros ev Hev. exists x. split; [lia|done]. }
      repeat split; try done.
      * apply Hsv, H. lia.
      * apply Hrun, H. lia.
      * apply Hrun, H. lia.
Qed.


Lemma itoa_inj (a b : Z) : itoa a = itoa b -> a = b.
Proof.
  unfold itoa. intros H.
  assert (Hnil : forall n, Z.to_int n <> Pos Nil /\ Z.to_int n <> Neg Nil).
  { intros [|p|p]; simpl; split; try discriminate;
      intros [= E]; exact (DecimalPos.Unsigned.to_uint_nonnil p E). }
  apply DecimalZ.to_int_inj.
  assert (Some (Z.to_int a) = Some (Z.to_int b)) as [= E]; [|exact E].
  rewrite <- (NilZero.isi (Z.to_int a)) by apply Hnil.
  rewrite <- (NilZero.isi (Z.to_int b)) by apply Hnil.
  rewrite H. reflexivity.
Qed.

Lemma makeServiceName_inj (a b : Z) : makeServiceName a = makeServiceName b -> a = b.
Proof. unfold makeServiceName. intros [= H]. apply itoa_inj, H. Qed.

Lemma makeServiceName_not_old (v : Z) : oldMongoServiceName <> makeServiceName v.
Proof. unfold makeServiceName, oldMongoServiceName. simpl. discriminate. Qed.

Lemma removeOldMongoServices_spec (curVersion : Z) (w : World) :
  post (removeOldMongoServices curVersion) w (fun err w' l =>
    only is_removal_op l /\
    Forall (fun ev => exists nm, is_legacy_name curVersion nm /\
                                 removal_target (fst ev) = Some nm) l /\
    fs w' = fs w /\ fdtable w' = fdtable w /\ rsconf w' = rsconf w /\
    (forall nm, ~ is_legacy_name curVersion nm ->
                services w' !! nm = services w !! nm /\
                (nm ∈ running w' <-> nm ∈ running w)) /\
    (forall nm, services w !! nm = None -> services w' !! nm = None) /\
    (err = nil -> forall nm, is_legacy_name curVersion nm -> services w' !! nm = None)).
Proof.
  unfold removeOldMongoServices. apply post_bind.
  eapply post_mono; [apply StopAndRemove_spec|].
  cbn [upstart.NewService Name].
  intros err w1 l1 (Ho & Hreq & Hfs & Hfd & Hrs & Hsv & Hrun & Hmono & Hgone & _).
  assert (Hold : forall nm, ~ is_legacy_name curVersion nm -> nm <> oldMongoServiceName).
  { intros nm Hnm ->. apply Hnm. by left. }
  assert (Hfirst : Forall (fun ev => exists nm, is_legacy_name curVersion nm /\
                                                removal_target (fst ev) = Some nm) l1).
  { eapply Forall_impl; [exact Hreq|]. intros ev Hev. exists oldMongoServiceName.
    split; [by left|done]. }
  destruct err; cbn beta iota zeta delta [negb is_nil].
  - eapply post_mono; [apply removeOldVersions_spec|].
    intros err w2 l2 (Ho2 & Hreq2 & Hfs2 & Hfd2 & Hrs2 & Hframe2 & Hmono2 & Hgone2).
    assert (Hrange : forall v, 2 <= v < 2 + Z.of_nat (Z.to_nat (curVersion - 2)) ->
                               2 <= v < curVersion) by lia.
    assert (Hver : forall nm, ~ is_legacy_name curVersion nm ->
              forall v, 2 <= v < 2 + Z.of_nat (Z.to_nat (curVersion - 2)) ->
                        nm <> makeServiceName v).
    { intros nm Hnm v Hv ->. apply Hnm. right. exists v. auto. }
    split; [by apply only_app|]. split.
    { apply Forall_app. split; [done|].
      eapply Forall_impl; [exact Hreq2|].
      intros ev (v & Hv & Hev). exists (makeServiceName v). split; [|done].
      right. exists v. auto. }
    repeat split; try congruence.
    + destruct (Hframe2 nm (Hver nm H)) as [-> _]. apply Hsv, Hold, H.
    + intros Hin. apply (Hframe2 nm (Hver nm H)) in Hin. by apply (Hrun nm (Hold nm H)).
    + intros Hin. apply (Hframe2 nm (Hver nm H)). by apply (Hrun nm (Hold nm H)).
    + intros nm Hnm. apply Hmono2, Hmono, Hnm.
    + intros -> nm [->|(v & Hv & ->)].
      * apply Hmono2, Hgone. done.
      * apply Hgone2; [done|lia].
  - apply post_ret. rewrite app_nil_r. repeat split; try done.
    + apply Hsv, Hold, H.
    + apply (Hrun nm (Hold nm H)).
    + apply (Hrun nm (Hold nm H)).
  - apply post_ret. rewrite app_nil_r. repeat split; try done.
    + apply Hsv, Hold, H.
    + apply (Hrun nm (Hold nm H)).
    + apply (Hrun nm (Hold nm H)).
Qed.


(** ** Lexical paths *)

Lemma append_String (a : ascii) (s t : string) : String a s +:+ t = String a (s +:+ t).
Proof. reflexivity. Qed.

Lemma append_empty_l (t : string) : "" +:+ t = t.
Proof. reflexivity. Qed.

Lemma append_empty_r (s : string) : s +:+ "" = s.
Proof. induction s as [|a s IH]; [reflexivity|]. rewrite append_String, IH. reflexivity. Qed.

Lemma append_assoc (s t u : string) : (s +:+ t) +:+ u = s +:+ (t +:+ u).
Proof.
  induction s as [|a s IH]; [reflexivity|]. rewrite !append_String, IH. reflexivity.
Qed.

Lemma length_append (s t : string) :
  String.length (s +:+ t) = (String.length s + String.length t)%nat.
Proof.
  induction s as [|a s IH]; [reflexivity|]. rewrite append_String. cbn. rewrite IH. done.
Qed.

Lemma split_slash_nonempty (s : string) : split_slash s <> [].
Proof.
  induction s as [|c s IH]; cbn; [done|].
  destruct (Ascii.eqb c "/"); [done|]. destruct (split_slash s); done.
Qed.

Lemma split_slash_append (p n : string) :
  split_slash (p +:+ String "/" n) = split_slash p ++ split_slash n.
Proof.
  induction p as [|c p IH].
  - reflexivity.
  - rewrite append_String. cbn [split_slash]. rewrite IH.
    destruct (Ascii.eqb c "/"); [reflexivity|].
    destruct (split_slash p) as [|h t] eqn:Hp; [by apply split_slash_nonempty in Hp|].
    reflexivity.
Qed.

Lemma split_slash_no_slash (s : string) : no_slash s = true -> split_slash s = [s].
Proof.
  induction s as [|c s IH]; cbn; [done|].
  intros [Hc Hs]%andb_true_iff. apply negb_true_iff in Hc. rewrite Hc, (IH Hs). done.
Qed.

Lemma split_slash_elements (s : string) :
  Forall (fun e => no_slash e = true) (split_slash s).
Proof.
  induction s as [|c s IH]; cbn.
  - constructor; [reflexivity|constructor].
  - destruct (Ascii.eqb c "/") eqn:Hc; [constructor; [reflexivity|done]|].
    destruct (split_slash s) as [|h t]; [constructor; [|constructor]; cbn; by rewrite Hc|].
    apply Forall_cons in IH as [Hh Ht]. constructor; [|done]. cbn. by rewrite Hc, Hh.
Qed.

Lemma Join_snoc (l : list string) (n : string) :
  l <> [] -> strings_Join (l ++ [n]) "/" = strings_Join l "/" +:+ "/" +:+ n.
Proof.
  unfold strings_Join. induction l as [|x l IH]; [done|]. intros _.
  destruct l as [|y l]; [reflexivity|].
  change (String.concat "/" ((x :: y :: l) ++ [n]))
    with (x +:+ "/" +:+ String.concat "/" ((y :: l) ++ [n])).
  rewrite IH by done.
  change (String.concat "/" (x :: y :: l)) with (x +:+ "/" +:+ String.concat "/" (y :: l)).
  by rewrite !append_assoc.
Qed.

Lemma split_slash_Join (l : list string) :
  Forall (fun e => no_slash e = true) l -> l <> [] ->
  split_slash (strings_Join l "/") = l.
Proof.
  unfold strings_Join. induction l as [|x l IH]; [done|].
  intros [Hx Hl]%Forall_cons _. destruct l as [|y l].
  - by apply split_slash_no_slash.
  - change (String.concat "/" (x :: y :: l))
      with (x +:+ String "/" (String.concat "/" (y :: l))).
    rewrite split_slash_append, (split_slash_no_slash x Hx), IH by done. reflexivity.
Qed.

Lemma rev_eq_nil {A} (l : list A) : rev l = [] -> l = [].
Proof.
  destruct l as [|x l]; [done|]. cbn [rev]. intros H.
  apply app_eq_nil in H as [_ H]. discriminate H.
Qed.

Lemma kept_step (r : bool) (st : list string) (e : string) :
  kept r st -> no_slash e = true -> kept r (clean_step r st e).
Proof.
  intros Hk He. unfold clean_step.
  destruct (String.eqb e "" || String.eqb e ".") eqn:Hskip; [done|].
  destruct (String.eqb e "..") eqn:Hdd.
  - apply String.eqb_eq in Hdd as ->.
    destruct st as [|top rest]; [destruct r; done|].
    destruct (String.eqb top "..") eqn:Htop; [|by destruct Hk].
    split; [done|]. split; [|done]. unfold clean_step. cbn. by rewrite Htop.
  - split; [done|]. split; [|done]. unfold clean_step. by rewrite Hskip, Hdd.
Qed.

Lemma kept_fold (r : bool) (l : list string) : forall st,
  kept r st -> Forall (fun e => no_slash e = true) l ->
  kept r (fold_left (clean_step r) l st).
Proof.
  induction l as [|e l IH]; intros st Hk Hl; [done|].
  apply Forall_cons in Hl as [He Hl]. cbn [fold_left]. apply IH; [|done].
  by apply kept_step.
Qed.

Lemma kept_stack_of (s : string) : kept (HasPrefix s "/") (stack_of s).
Proof. apply kept_fold; [done|apply split_slash_elements]. Qed.

Lemma kept_refold (r : bool) (st : list string) :
  kept r st -> fold_left (clean_step r) (rev st) [] = st.
Proof.
  induction st as [|e st IH]; [done|]. intros (Hk & Hstep & _).
  cbn [rev]. rewrite fold_left_app, (IH Hk). exact Hstep.
Qed.

Lemma kept_elements (r : bool) (st : list string) :
  kept r st -> Forall (fun e => e <> "" /\ no_slash e = true) st.
Proof.
  induction st as [|e st IH]; [constructor|]. intros (Hk & Hstep & He).
  constructor; [|by apply IH]. split; [|done]. intros ->.
  cbn in Hstep. apply (f_equal length) in Hstep. cbn in Hstep. lia.
Qed.

Lemma Join_head (e : string) (l : list string) :
  exists t, strings_Join (e :: l) "/" = e +:+ t.
Proof.
  destruct l as [|y l].
  - exists "". cbn. by rewrite append_empty_r.
  - eexists. reflexivity.
Qed.

Lemma HasPrefix_slash_no_slash (e t : string) :
  e <> "" -> no_slash e = true -> HasPrefix (e +:+ t) "/" = false.
Proof.
  destruct e as [|c e]; [done|]. intros _ [Hc _]%andb_true_iff.
  apply negb_true_iff in Hc. rewrite append_String. cbn [HasPrefix].
  rewrite Ascii.eqb_sym in Hc. by rewrite Hc.
Qed.

(** The rendering of a kept, non-empty stack starts with a slash exactly
    when the path is rooted, and is never empty. *)
Lemma render_prefix (r : bool) (st : list string) (t : string) :
  kept r st -> st <> [] -> HasPrefix (render r st +:+ t) "/" = r.
Proof.
  intros Hk Hne. unfold render. destruct r; [reflexivity|].
  rewrite append_empty_l.
  destruct (rev st) as [|e l] eqn:Hrev.
  { by apply rev_eq_nil in Hrev. }
  destruct (Join_head e l) as [u ->]. rewrite append_assoc.
  assert (He : e ∈ st).
    { apply list_elem_of_In, in_rev. rewrite Hrev. by left. }
  pose proof (kept_elements _ _ Hk) as Hall.
  rewrite Forall_forall in Hall. destruct (Hall e He) as [Hne' Hns].
  by apply HasPrefix_slash_no_slash.
Qed.

Lemma render_nonempty (r : bool) (st : list string) :
  kept r st -> st <> [] -> render r st <> "".
Proof.
  intros Hk Hne Heq. pose proof (render_prefix r st "" Hk Hne) as Hp.
  rewrite Heq in Hp. destruct r; [|clear Hp].
  - discriminate Hp.
  - unfold render in Heq. rewrite append_empty_l in Heq.
    destruct (rev st) as [|e l] eqn:Hrev.
    { by apply rev_eq_nil in Hrev. }
    destruct (Join_head e l) as [u Hu]. rewrite Hu in Heq.
    assert (He : e ∈ st).
    { apply list_elem_of_In, in_rev. rewrite Hrev. by left. }
    pose proof (kept_elements _ _ Hk) as Hall.
    rewrite Forall_forall in Hall. destruct (Hall e He) as [Hne' _].
    destruct e; [done|]. discriminate Heq.
Qed.

Lemma Clean_stack (s : string) :
  s <> "" -> stack_of s <> [] -> Clean s = render (HasPrefix s "/") (stack_of s).
Proof.
  intros Hs Hst. unfold Clean. apply String.eqb_neq in Hs. rewrite Hs.
  fold (stack_of s). fold (render (HasPrefix s "/") (stack_of s)). cbv zeta.
  pose proof (render_nonempty _ _ (kept_stack_of s) Hst) as Hr.
  apply String.eqb_neq in Hr. by rewrite Hr.
Qed.

Lemma split_slash_render (r : bool) (st : list string) :
  kept r st -> st <> [] ->
  split_slash (render r st) = (if r then [""] else []) ++ rev st.
Proof.
  intros Hk Hne. unfold render.
  assert (Hsplit : split_slash (strings_Join (rev st) "/") = rev st).
  { apply split_slash_Join.
    - apply Forall_rev. eapply Forall_impl; [apply (kept_elements _ _ Hk)|].
      by intros e [_ He].
    - intros Hrev. by apply rev_eq_nil in Hrev. }
  destruct r.
  - change ("/" +:+ strings_Join (rev st) "/")
      with ("" +:+ String "/" (strings_Join (rev st) "/")).
    rewrite split_slash_append, Hsplit. reflexivity.
  - by rewrite append_empty_l.
Qed.

(** A plain name joined to a clean path that is neither [/] nor [.] is the
    path, a slash and the name. *)
Lemma Clean_child (s n : string) :
  s <> "" -> stack_of s <> [] -> plain n = true ->
  Clean (Clean s +:+ "/" +:+ n) = Clean s +:+ "/" +:+ n.
Proof.
  intros Hs Hst Hn. rewrite (Clean_stack s Hs Hst).
  set (r := HasPrefix s "/"). set (st := stack_of s).
  assert (Hk : kept r st) by apply kept_stack_of.
  unfold plain in Hn. apply andb_true_iff in Hn as [Hn Hns].
  assert (Hpre : HasPrefix (render r st +:+ "/" +:+ n) "/" = r) by by apply render_prefix.
  assert (Hstack : stack_of (render r st +:+ "/" +:+ n) = n :: st).
  { unfold stack_of. rewrite Hpre.
    change (render r st +:+ "/" +:+ n) with (render r st +:+ String "/" n).
    rewrite split_slash_append, (split_slash_no_slash n Hns), split_slash_render by done.
    rewrite !fold_left_app.
    assert (fold_left (clean_step r) (if r then [""] else []) [] = []) as ->
      by by destruct r.
    rewrite kept_refold by done. cbn [fold_left]. unfold clean_step.
    apply andb_true_iff in Hn as [Hn Hdd]. apply andb_true_iff in Hn as [He Hd].
    apply negb_true_iff in He, Hd, Hdd. by rewrite He, Hd, Hdd. }
  rewrite Clean_stack.
  - rewrite Hpre, Hstack. unfold render. cbn [rev].
    rewrite Join_snoc, !append_assoc; [done|].
    intros Hrev. by apply rev_eq_nil in Hrev.
  - intros Heq. apply (f_equal String.length) in Heq. rewrite !length_append in Heq.
    cbn in Heq. lia.
  - by rewrite Hstack.
Qed.

Lemma no_slash_uint (d : uint) : no_slash (NilEmpty.string_of_uint d) = true.
Proof. induction d; cbn; done. Qed.

Lemma no_slash_itoa (v : Z) : no_slash (itoa v) = true.
Proof.
  unfold itoa. destruct (Z.to_int v) as [d|d]; cbn [NilZero.string_of_int].
  - destruct d; try apply no_slash_uint. reflexivity.
  - cbn [no_slash]. destruct d; try apply no_slash_uint. reflexivity.
Qed.

Lemma plain_prealloc (v : Z) : plain ("prealloc." +:+ itoa v) = true.
Proof.
  unfold plain. rewrite !append_String, append_empty_l. cbn.
  apply no_slash_itoa.
Qed.

(** The journal directory of [dir]: a clean path that ends in [journal]. *)
Lemma Join_journal (dir : string) :
  exists s, s <> "" /\ stack_of s <> [] /\ Join [dir; "journal"] = Clean s.
Proof.
  destruct (String.eqb dir "") eqn:Hdir.
  - exists "journal". apply String.eqb_eq in Hdir as ->. done.
  - exists (dir +:+ String "/" "journal"). split_and!.
    + intros Heq. apply (f_equal String.length) in Heq. rewrite length_append in Heq.
      cbn in Heq. lia.
    + unfold stack_of. rewrite split_slash_append, fold_left_app. done.
    + cbn [Join]. by rewrite Hdir.
Qed.

Lemma Join_journal_child (dir n : string) :
  plain n = true ->
  Join [Join [dir; "journal"]; n] = Join [dir; "journal"] +:+ "/" +:+ n.
Proof.
  intros Hn. destruct (Join_journal dir) as (s & Hs & Hst & ->).
  assert (HJ : Clean s <> "").
  { rewrite Clean_stack by done. apply render_nonempty; [apply kept_stack_of|done]. }
  cbn [Join]. apply String.eqb_neq in HJ. rewrite HJ.
  change (strings_Join [Clean s; n] "/") with (Clean s +:+ "/" +:+ n).
  by apply Clean_child.
Qed.

Lemma Join_prealloc (dir : string) (v : Z) :
  filepath_Join [Join [dir; "journal"]; "prealloc." +:+ itoa v] =
  prealloc_path (Join [dir; "journal"]) v.
Proof. unfold filepath_Join, prealloc_path. apply Join_journal_child, plain_prealloc. Qed.

(** ** The file system *)

Lemma Mkdir_spec (path : string) (perm : Z) (w : World) :
  post (os.Mkdir path perm) w (fun err w' l =>
    l = [(OpMkdir path perm, outcome_of err)] /\
    same_services w w' /\ fdtable w' = fdtable w /\
    (err = nil -> fs w !! path = None /\ fs w' = <[path := Dir perm]> (fs w)) /\
    (err <> nil -> fs w' = fs w)).
Proof.
  unfold os.Mkdir, same_services. wp; world_simpl; repeat split; intros; done.
Qed.

Lemma mkdir_chain_spec (perm : Z) (chain : list string) : forall (w : World),
  post (os.mkdir_chain chain perm) w (fun err w' l =>
    only is_mkdir l /\ same_services w w' /\ fdtable w' = fdtable w /\
    (forall k, k ∉ chain -> fs w' !! k = fs w !! k) /\
    (forall k, fs w' !! k = fs w !! k \/
               (fs w !! k = None /\ fs w' !! k = Some (Dir perm))) /\
    (err = nil -> forall p up, chain = p :: up -> exists m, fs w' !! p = Some (Dir m))).
Proof.
  induction chain as [|p up IH]; intros w.
  - apply post_ret. unfold same_services. repeat split; intros; try done. by left.
  - cbn [os.mkdir_chain]. apply post_bind, post_get.
    destruct (fs w !! p) as [[m|m d]|] eqn:Hp.
    + apply post_ret. unfold same_services. repeat split; intros; try done; [by left|].
      simplify_eq. eauto.
    + apply post_ret. unfold same_services. repeat split; intros; try done. by left.
    + apply post_bind. eapply post_mono; [apply IH|].
      intros err w1 l1 (Ho1 & Hsame1 & Hfd1 & Hframe1 & Hnew1 & _).
      destruct err; cbn beta iota zeta delta [is_nil].
      * eapply post_mono; [apply Mkdir_spec|].
        intros err w2 l2 (-> & Hsame2 & Hfd2 & Hok2 & Hfail2).
        split; [by apply only_snoc|].
        split; [unfold same_services in *; intuition congruence|].
        split; [congruence|].
        destruct (decide (err = nil)) as [->|Hne].
        -- destruct (Hok2 eq_refl) as [Hnone ->].
           split_and!.
           ++ intros k Hk. apply not_elem_of_cons in Hk as [Hkp Hkup].
              rewrite lookup_insert_ne by done. by apply Hframe1.
           ++ intros k. destruct (decide (k = p)) as [->|Hkp].
              ** right. rewrite lookup_insert_eq. done.
              ** rewrite lookup_insert_ne by done. apply Hnew1.
           ++ intros _ p' up' [= <- <-]. rewrite lookup_insert_eq. eauto.
        -- rewrite (Hfail2 Hne). split_and!; try done.
           intros k Hk. apply not_elem_of_cons in Hk as [Hkp Hkup]. by apply Hframe1.
      * apply post_ret. rewrite app_nil_r. split_and!; try done.
        intros k Hk. apply not_elem_of_cons in Hk as [Hkp Hkup]. by apply Hframe1.
      * apply post_ret. rewrite app_nil_r. split_and!; try done.
        intros k Hk. apply not_elem_of_cons in Hk as [Hkp Hkup]. by apply Hframe1.
Qed.

Lemma MkdirAll_spec (path : string) (perm : Z) (w : World) :
  post (os.MkdirAll path perm) w (fun err w' l =>
    only is_mkdir l /\ same_services w w' /\ fdtable w' = fdtable w /\
    (forall k, k ∉ path :: rev (os.parents_from "" path) -> fs w' !! k = fs w !! k) /\
    (forall k, fs w' !! k = fs w !! k \/
               (fs w !! k = None /\ fs w' !! k = Some (Dir perm))) /\
    (err = nil -> exists m, fs w' !! path = Some (Dir m))).
Proof.
  unfold os.MkdirAll. apply post_bind.
  eapply post_mono; [apply mkdir_chain_spec|].
  intros err w1 l1 (Ho & Hsame & Hfd & Hframe & Hnew & Hdir).
  apply post_report. world_simpl.
  split; [by apply only_snoc|].
  split_and!; try done. intros ->. by eapply Hdir.
Qed.


Lemma OpenFile_spec (name : string) (flag perm : Z) (w : World) :
  Z.testbit flag 9 = true -> Z.testbit flag 6 = true ->
  post (os.OpenFile name flag perm) w (fun r w' l =>
    l = [(OpOpenFile name flag perm, outcome_of (snd r))] /\
    same_services w w' /\
    (snd r <> nil -> fs w' = fs w /\ fdtable w' = fdtable w) /\
    (snd r = nil ->
       fname (fst r) = name /\
       fdtable w !! fd (fst r) = None /\
       fdtable w' = <[fd (fst r) := (name, 0%nat)]> (fdtable w) /\
       (forall m, fs w !! name <> Some (Dir m)) /\
       exists p, fs w' = <[name := File p []]> (fs w) /\
                 (fs w !! name = None -> p = perm))).
Proof.
  intros Htrunc Hcreate. unfold os.OpenFile, same_services. rewrite Htrunc, Hcreate.
  assert (Hfresh : fdtable w !! fresh (dom (fdtable w)) = None).
  { apply not_elem_of_dom, is_fresh. }
  wp; world_simpl; cbn [fst snd fd fname]; split_and!; intros; try done.
  all: split_and!; try done; try congruence.
  all: eexists; split; [reflexivity|]; congruence.
Qed.

Lemma pwrite_append (d b : list Byte.byte) : os.pwrite d (length d) b = d ++ b.
Proof.
  unfold os.pwrite. rewrite firstn_all, Nat.sub_diag. cbn [repeat app].
  rewrite skipn_all2 by lia. by rewrite app_nil_r.
Qed.

Lemma Write_spec (f : OsFile) (b : list Byte.byte) (w : World) :
  post (os.Write f b) w (fun r w' l =>
    l = [(OpWrite (fname f) (Z.of_nat (length b)), outcome_of (snd r))] /\
    same_services w w' /\
    (snd r <> nil -> fs w' = fs w /\ fdtable w' = fdtable w) /\
    (snd r = nil ->
       fst r = Z.of_nat (length b) /\
       exists path off p d,
         fdtable w !! fd f = Some (path, off) /\
         fs w !! path = Some (File p d) /\
         fs w' = <[path := File p (os.pwrite d off b)]> (fs w) /\
         fdtable w' = <[fd f := (path, (off + length b)%nat)]> (fdtable w))).
Proof.
  unfold os.Write, same_services.
  wp; world_simpl; cbn [fst snd]; split_and!; intros; try done.
  split; [done|]. eauto 10.
Qed.

Lemma Close_spec (f : OsFile) (w : World) :
  post (os.Close f) w (fun _ w' l =>
    only is_close l /\ same_services w w' /\ fs w' = fs w).
Proof.
  unfold os.Close, same_services. wp; world_simpl; split_and!; done.
Qed.

Lemma closeDeferred_spec (deferred : list OsFile) : forall (w : World),
  post (closeDeferred deferred) w (fun _ w' l =>
    only is_close l /\ same_services w w' /\ fs w' = fs w).
Proof.
  induction deferred as [|f rest IH]; intros w.
  - apply post_ret. unfold same_services. split_and!; done.
  - cbn [closeDeferred]. apply post_bind.
    eapply post_mono; [apply Close_spec|].
    intros _ w1 l1 (Ho1 & (Hs1 & Hr1 & Hc1) & Hfs1).
    eapply post_mono; [apply IH|].
    intros _ w2 l2 (Ho2 & (Hs2 & Hr2 & Hc2) & Hfs2).
    unfold same_services. split_and!; try congruence. by apply only_app.
Qed.


(** ** The journal preallocator *)

Lemma repeat_succ_chunk (i c : nat) :
  repeat Byte.x00 (i * c) ++ repeat Byte.x00 c = repeat Byte.x00 (S i * c).
Proof. rewrite <- repeat_app. f_equal. lia. Qed.

Lemma writeZeroes_spec (c : nat) (f : OsFile) (filename path : string) (p : Z) :
  Z.of_nat c = 65536 ->
  forall (fuel i : nat) (w : World),
    (i <= 16)%nat -> (16 - i <= fuel)%nat ->
    fdtable w !! fd f = Some (path, (i * c)%nat) ->
    fs w !! path = Some (File p (repeat Byte.x00 (i * c))) ->
    post (writeZeroes fuel f (repeat Byte.x00 c) filename (Z.of_nat (i * c))) w
      (fun r w' l =>
         only is_file_op l /\ same_services w w' /\ r <> None /\
         (forall k, k <> path -> fs w' !! k = fs w !! k) /\
         (forall k, k <> fd f -> fdtable w' !! k = fdtable w !! k) /\
         (exists j, fs w' !! path = Some (File p (repeat Byte.x00 (j * c)))) /\
         (r = Some nil ->
            fs w' !! path = Some (File p (repeat Byte.x00 (16 * c))) /\
            l = repeat (OpWrite (fname f) 65536, Ok) (16 - i))).
Proof.
  intros Hc. induction fuel as [|fuel IH]; intros i w Hi Hfuel Hfd Hfs;
    cbn [writeZeroes];
    destruct (Z.of_nat (i * c) <? 1024 * 1024) eqn:Hlt.
  - apply Z.ltb_lt in Hlt. rewrite Nat2Z.inj_mul, Hc in Hlt. lia.
  - apply Z.ltb_ge in Hlt. rewrite Nat2Z.inj_mul, Hc in Hlt.
    assert (i = 16%nat) as -> by lia.
    apply post_ret. unfold same_services. split_and!; try done. eauto.
  - apply Z.ltb_lt in Hlt. rewrite Nat2Z.inj_mul, Hc in Hlt.
    apply post_bind. eapply post_mono; [apply Write_spec|].
    intros [n err] w1 l1. cbn [fst snd]. intros (-> & Hsame1 & Hfail1 & Hok1).
    rewrite repeat_length, Hc.
    destruct (decide (err = nil)) as [->|Hne].
    + destruct (Hok1 eq_refl) as (-> & path' & off & p' & d & Hfd' & Hfs' & Hfs1 & Hfd1).
      rewrite Hfd in Hfd'. injection Hfd' as <- <-.
      rewrite Hfs in Hfs'. injection Hfs' as <- <-.
      rewrite repeat_length in Hfd1.
      replace (i * c)%nat with (length (repeat Byte.x00 (i * c))) in Hfs1 at 2
        by apply repeat_length.
      rewrite pwrite_append, repeat_succ_chunk in Hfs1.
      cbn beta iota zeta delta [negb is_nil].
      replace (Z.of_nat (i * c) + Z.of_nat (length (repeat Byte.x00 c)))
        with (Z.of_nat (S i * c)) by (rewrite repeat_length; lia).
      eapply post_mono; [apply (IH (S i) w1)|]; try lia.
      * rewrite Hfd1, lookup_insert_eq. f_equal. f_equal. lia.
      * rewrite Hfs1, lookup_insert_eq. done.
      * intros r w2 l2 (Ho2 & Hsame2 & Hr2 & Hframe2 & Hfdframe2 & Hfile2 & Hok2).
        split; [apply only_cons; [reflexivity|done]|].
        split; [unfold same_services in *; intuition congruence|].
        split; [done|].
        split; [intros k Hk; rewrite Hframe2, Hfs1 by done; by rewrite lookup_insert_ne|].
        split; [intros k Hk; rewrite Hfdframe2, Hfd1 by done; by rewrite lookup_insert_ne|].
        split; [done|].
        intros Hr. destruct (Hok2 Hr) as [Hfin ->]. split; [done|].
        replace (16 - i)%nat with (S (16 - S i)) by lia. reflexivity.
    + destruct (Hfail1 Hne) as [Hfs1 Hfd1].
      destruct err; [done| |]; cbn beta iota zeta delta [negb is_nil].
      all: apply post_ret; rewrite app_nil_r.
      all: split; [reflexivity|].
      all: split; [done|].
      all: split_and!; try done; try (intros; congruence).
      all: rewrite Hfs1; eauto.
  - apply Z.ltb_ge in Hlt. rewrite Nat2Z.inj_mul, Hc in Hlt.
    assert (i = 16%nat) as -> by lia.
    apply post_ret. unfold same_services. split_and!; try done. eauto.
Qed.


Lemma prealloc_path_inj (J : string) (a b : Z) :
  prealloc_path J a = prealloc_path J b -> a = b.
Proof.
  unfold prealloc_path. intros H.
  apply (inj (String.append J)) in H.
  apply (inj (String.append "/")) in H.
  apply (inj (String.append "prealloc.")) in H.
  apply itoa_inj, H.
Qed.

Lemma ops_where_writes (path : string) (n : Z) (k : nat) :
  ops_where is_write (repeat (OpWrite path n, Ok) k) = repeat (OpWrite path n, Ok) k.
Proof. induction k as [|k IH]; [reflexivity|]. cbn. f_equal. exact IH. Qed.

Lemma preallocFiles_spec (c : nat) (J : string) :
  Z.of_nat c = 65536 ->
  (forall v, filepath_Join [J; "prealloc." +:+ itoa v] = prealloc_path J v) ->
  forall (n : nat) (x : Z) (deferred : list OsFile) (w : World),
    post (preallocFiles n x J (repeat Byte.x00 c) deferred) w (fun r w' l =>
      only is_file_op l /\ same_services w w' /\ fst r <> None /\
      (forall k, (forall v, x <= v < x + Z.of_nat n -> k <> prealloc_path J v) ->
                 fs w' !! k = fs w !! k) /\
      (fst r = Some nil ->
         (forall v, x <= v < x + Z.of_nat n ->
            exists p, fs w' !! prealloc_path J v =
                        Some (File p (repeat Byte.x00 (16 * c))) /\
                      (fs w !! prealloc_path J v = None -> p = 448)) /\
         ops_where is_write l =
           flat_map (fun v => repeat (OpWrite (prealloc_path J v) 65536, Ok) 16)
                    (seqZ x (Z.of_nat n)))).
Proof.
  intros Hc Hfn. induction n as [|n IH]; intros x deferred w.
  - apply post_ret. unfold same_services. cbn [fst]. split_and!; try done.
    intros _. split; [intros; lia|]. reflexivity.
  - cbn [preallocFiles]. rewrite Hfn. apply post_bind.
    eapply post_mono; [apply OpenFile_spec; reflexivity|].
    intros [f err] w1 l1. cbn [fst snd]. intros (-> & Hsame1 & Hfail1 & Hok1).
    destruct (decide (err = nil)) as [->|Hne].
    2:{ destruct (Hfail1 Hne) as [Hfs1 Hfd1].
        destruct err; [done| |]; cbn beta iota zeta delta [negb is_nil].
        all: apply post_ret; rewrite app_nil_r; cbn [fst].
        all: split_and!; try done; intros; congruence. }
    destruct (Hok1 eq_refl) as (Hname & Hfresh & Hfd1 & Hnodir & p & Hfs1 & Hperm).
    cbn beta iota zeta delta [negb is_nil].
    apply post_bind. change 0 with (Z.of_nat (0 * c)).
    eapply post_mono;
      [apply (writeZeroes_spec c f _ (prealloc_path J x) p Hc 16 0 w1); try lia|].
    { rewrite Hfd1, lookup_insert_eq. done. }
    { rewrite Hfs1, lookup_insert_eq. done. }
    intros r w2 l2 (Ho2 & Hsame2 & Hr2 & Hframe2 & _ & Hfile2 & Hok2).
    assert (Hw2 : forall k, k <> prealloc_path J x -> fs w2 !! k = fs w !! k).
    { intros k Hk. rewrite Hframe2, Hfs1 by done. by rewrite lookup_insert_ne. }
    assert (Hs02 : same_services w w2).
    { unfold same_services in *. intuition congruence. }
    assert (Hl12 : only is_file_op ([(OpOpenFile (prealloc_path J x)
                     (Z.lor (Z.lor os.O_WRONLY os.O_CREATE) os.O_TRUNC) 448,
                     outcome_of nil)] ++ l2)).
    { apply only_cons; [reflexivity|done]. }
    destruct r as [[| |msg]|]; [|by (apply post_ret; rewrite app_nil_r; cbn [fst];
      split_and!; try done; intros; apply Hw2, H; lia)..].
    destruct (Hok2 eq_refl) as [Hdone ->].
    eapply post_mono; [apply IH|].
    intros r3 w3 l3 (Ho3 & Hsame3 & Hr3 & Hframe3 & Hok3).
    split; [apply only_app; [reflexivity|by apply only_app]|].
    split; [unfold same_services in *; intuition congruence|].
    split; [done|].
    split.
    { intros k Hk. rewrite Hframe3 by (intros; apply Hk; lia). apply Hw2, Hk. lia. }
    intros Hr. destruct (Hok3 Hr) as [Hfiles3 Hlog3]. split.
    + intros v Hv. destruct (decide (v = x)) as [->|Hvx].
      * exists p. split; [|done].
        rewrite Hframe3; [done|].
        intros v' Hv' Heq. apply prealloc_path_inj in Heq. lia.
      * destruct (Hfiles3 v) as (p' & Hp' & Hperm'); [lia|].
        exists p'. split; [done|]. intros Hnone. apply Hperm'.
        rewrite Hw2; [done|]. intros Heq. apply prealloc_path_inj in Heq. done.
    + rewrite !ops_where_app, Hlog3, Hname.
      rewrite (seqZ_cons x) by lia. cbn [flat_map].
      replace (Z.pred (Z.of_nat (S n))) with (Z.of_nat n) by lia.
      replace (Z.succ x) with (x + 1) by lia.
      rewrite ops_where_writes. reflexivity.
Qed.


Lemma parents_from_length (rest : string) : forall (pre k : string),
  k ∈ os.parents_from pre rest ->
  (String.length k <= String.length pre + String.length rest)%nat.
Proof.
  induction rest as [|c rest IH]; intros pre k Hk; cbn [os.parents_from] in Hk.
  - by apply elem_of_nil in Hk.
  - apply elem_of_app in Hk as [Hk|Hk].
    + assert (k = pre) as ->; [|cbn; lia].
      destruct rest as [|d rest']; [by apply elem_of_nil in Hk|].
      destruct (_ && _); [|by apply elem_of_nil in Hk].
      by apply list_elem_of_singleton in Hk.
    + apply IH in Hk. rewrite length_append in Hk. cbn in *. lia.
Qed.

Lemma prealloc_path_longer (J : string) (v : Z) :
  (String.length J < String.length (prealloc_path J v))%nat.
Proof. unfold prealloc_path. rewrite !length_append. cbn. lia. Qed.

Lemma prealloc_path_not_parent (J : string) (v : Z) :
  prealloc_path J v ∉ J :: rev (os.parents_from "" J).
Proof.
  pose proof (prealloc_path_longer J v) as Hlen.
  intros [Heq|Hin]%elem_of_cons.
  - rewrite Heq in Hlen. lia.
  - apply list_elem_of_In, in_rev, list_elem_of_In, parents_from_length in Hin.
    cbn in Hin. lia.
Qed.

Lemma makeJournalDirs_spec (dir : string) (w : World) :
  post (makeJournalDirs dir) w (fun r w' l =>
    let J := Join [dir; "journal"] in
    only is_file_op l /\ same_services w w' /\ r <> None /\
    (forall k, k ∉ J :: rev (os.parents_from "" J) ->
               (forall v, 0 <= v < 3 -> k <> prealloc_path J v) ->
               fs w' !! k = fs w !! k) /\
    (r = Some nil ->
       (exists m, fs w' !! J = Some (Dir m) /\
                  (fs w !! J = None -> m = 448) /\
                  (forall m0, fs w !! J = Some (Dir m0) -> m = m0)) /\
       (forall v, 0 <= v < 3 ->
          exists p, fs w' !! prealloc_path J v =
                      Some (File p (repeat Byte.x00 (Z.to_nat (1024 * 1024)))) /\
                    (fs w !! prealloc_path J v = None -> p = 448)) /\
       ops_where is_write l =
         flat_map (fun v => repeat (OpWrite (prealloc_path J v) 65536, Ok) 16) [0; 1; 2])).
Proof.
  unfold makeJournalDirs. set (J := Join [dir; "journal"]). cbv zeta.
  apply post_bind. eapply post_mono; [apply MkdirAll_spec|].
  intros err w1 l1 (Ho1 & Hsame1 & Hfd1 & Hframe1 & Hnew1 & Hdir1).
  destruct (decide (err = nil)) as [->|Hne].
  2:{ destruct err; [done| |]; cbn beta iota zeta delta [negb is_nil].
      all: apply post_ret; rewrite app_nil_r.
      all: split_and!; try done; try (intros; by apply Hframe1).
      all: by apply (only_weaken is_mkdir); [intros []|]. }
  cbn beta iota zeta delta [negb is_nil].
  set (c := Z.to_nat (64 * 1024)).
  assert (Hc : Z.of_nat c = 65536) by (subst c; lia).
  apply post_bind.
  eapply post_mono; [apply (preallocFiles_spec c J Hc (Join_prealloc dir) 3 0 [] w1)|].
  intros [r deferred] w2 l2. cbn [fst]. intros (Ho2 & Hsame2 & Hr2 & Hframe2 & Hok2).
  apply post_bind. eapply post_mono; [apply closeDeferred_spec|].
  intros _ w3 l3 (Ho3 & Hsame3 & Hfs3). apply post_ret. rewrite app_nil_r.
  split.
  { apply only_app; [by apply (only_weaken is_mkdir); [intros []|]|].
    apply only_app; [done|]. by apply (only_weaken is_close); [intros []|]. }
  split; [unfold same_services in *; intuition congruence|].
  split; [done|].
  split.
  { intros k Hk Hkv. rewrite Hfs3, Hframe2, Hframe1; [done..|].
    intros v Hv. apply Hkv. lia. }
  intros ->. destruct (Hok2 eq_refl) as [Hfiles Hlog]. split_and!.
  - destruct (Hdir1 eq_refl) as [m Hm]. exists m.
    assert (HJ : fs w3 !! J = Some (Dir m)).
    { rewrite Hfs3, Hframe2; [done|]. intros v _ Heq.
      pose proof (prealloc_path_longer J v) as Hlen. rewrite <- Heq in Hlen. lia. }
    split; [done|]. destruct (Hnew1 J) as [Hsame|[Hnone Hnew]]; split; intros; congruence.
  - intros v Hv. destruct (Hfiles v) as (p & Hp & Hperm); [lia|].
    exists p. split.
    + assert (Hsize : Z.to_nat (1024 * 1024) = (16 * c)%nat) by (subst c; lia).
      rewrite Hsize, Hfs3. exact Hp.
    + intros Hnone. apply Hperm. rewrite Hframe1; [done|]. apply prealloc_path_not_parent.
  - rewrite !ops_where_app, Hlog.
    rewrite (ops_where_only is_close is_write l3 Ho3) by (by intros []).
    rewrite (ops_where_only is_mkdir is_write l1 Ho1) by (by intros []).
    rewrite app_nil_r. reflexivity.
Qed.


(** What the rest of the convergence needs of the journal preallocator: it
    returns, and it touches nothing but the file system. *)
Lemma makeJournalDirs_frame (dir : string) (w : World) :
  post (makeJournalDirs dir) w (fun r w' l =>
    only is_file_op l /\ same_services w w' /\ r <> None).
Proof.
  eapply post_mono; [apply makeJournalDirs_spec|].
  intros r w' l (Hl & Hsame & Hr & _). done.
Qed.

(** ** The replica-set bootstrapper *)




Lemma initiateReplicaSet_spec (address : string) (port : Z) (info : DialInfo) (w : World) :
  post (initiateReplicaSet address port info) w (fun v w' l =>
    only is_network_op l /\ same_node w w' /\
    (rsconf w <> None -> ops_where is_initiate l = [] /\ rsconf w' = rsconf w) /\
    (v = nil -> rsconf w' <> None) /\
    (List.filter dial_failed l <> [] ->
       ops_where is_query l = [] /\ ops_where is_initiate l = [])).
Proof.
  unfold initiateReplicaSet, net.InterfaceAddrs, mgo.DialWithInfo, mgo.Close,
    replicaset.CurrentConfig, replicaset.Initiate, same_node.
  wp; world_simpl; cbn; split_and!; intros; try done; congruence.
Qed.


(** ** The convergence entry point *)

Lemma mongoUpstartService_eq (name dataDir dbDir : string) (port : Z) :
  mongoUpstartService name dataDir dbDir port =
  (fst (mongoUpstartService name dataDir dbDir port), nil).
Proof. reflexivity. Qed.

Lemma mongoUpstartService_name (name dataDir dbDir : string) (port : Z) :
  Name (Svc (fst (mongoUpstartService name dataDir dbDir port))) = name.
Proof. reflexivity. Qed.

Lemma makeServiceName_not_legacy (version : Z) :
  ~ is_legacy_name version (makeServiceName version).
Proof.
  intros [Hold|(v & Hv & Heq)].
  - symmetry in Hold. by apply makeServiceName_not_old in Hold.
  - apply makeServiceName_inj in Heq. lia.
Qed.

(** A step of a run through [ensureMongoServerAt]: the parts of the
    function come with their specifications. *)
Ltac ensure_step :=
  lazymatch goal with
  | |- post (removeOldMongoServices _) _ _ =>
      eapply post_mono; [apply removeOldMongoServices_spec|];
      intros ? ? ? (?Hrm & ?Hreq & ?Hrmfs & ?Hrmfd & ?Hrmrs & ?Hframe & ?Hmono & ?Hgone)
  | |- post (makeJournalDirs _) _ _ =>
      eapply post_mono; [apply makeJournalDirs_frame|];
      intros ? ? ? (?Hjl & ?Hjsame & ?Hjret)
  | |- post (initiateReplicaSet _ _ _) _ _ =>
      eapply post_mono; [apply initiateReplicaSet_spec|];
      intros ? ? ? (?Hnet & ?Hnode & ?Hconf & ?Hinit & ?Hdial)
  | |- _ => wp_step
  end.

Ltac ensure_walk :=
  unfold ensureMongoServer, ensureMongoServerAt; cbv zeta;
  rewrite mongoUpstartService_eq; cbv beta iota zeta;
  unfold upstart.Installed, upstart.Install, upstart.Running, upstart.Start;
  cbv zeta; rewrite ?mongoUpstartService_name;
  repeat (ensure_step; cbn beta iota zeta delta [negb is_nil fst snd]);
  world_simpl.

(** What removing the legacy definitions leaves of the current one. *)
Ltac use_frame version :=
  match goal with
  | Hframe : forall nm, ~ is_legacy_name version nm -> _ |- _ =>
      destruct (Hframe _ (makeServiceName_not_legacy version)) as [?Hsvc ?Hrunning]
  end.

(** The installed? and running? tests as propositions. *)
Ltac tests :=
  repeat match goal with
  | H : negb (bool_decide _) = true |- _ =>
      apply negb_true_iff in H; rewrite bool_decide_eq_false in H
  | H : negb (bool_decide _) = false |- _ =>
      apply negb_false_iff in H; rewrite bool_decide_eq_true in H
  end.

(** Normalise the filters over a log that is an append of known events and
    of the logs of the parts. *)
Ltac logs :=
  unfold ops_where in *;
  rewrite ?List.filter_app;
  repeat match goal with
  | H : only ?q ?l |- context [List.filter ?p ?l] =>
      rewrite (filter_only q p l H)
        by (intros [[] ?]; cbn; intros; first [discriminate | reflexivity])
  end;
  cbn [List.filter app fst snd andb orb negb outcome_of failed
       install_failed dial_failed is_install is_start is_initiate is_query is_dial
       is_journal_op is_path_lookup is_removal is_removal_request].

Lemma ensure_short_circuit (version : Z) (address dataDir : string) (port : Z)
    (info : DialInfo) (w : World) :
  post (ensureMongoServerAt version address dataDir port info) w (fun _ _ l =>
    (List.filter install_failed l <> [] ->
       ops_where is_start l = [] /\ ops_where is_initiate l = []) /\
    (List.filter dial_failed l <> [] ->
       ops_where is_query l = [] /\ ops_where is_initiate l = [])).
Proof.
  ensure_walk.
  all: logs.
  all: try (split; intros; done).
  all: rewrite ?app_nil_r; split; [intros; done|assumption].
Qed.


(** The journal loop never runs out of fuel: the function returns. *)
Lemma ensure_returns (version : Z) (address dataDir : string) (port : Z)
    (info : DialInfo) (w : World) :
  post (ensureMongoServerAt version address dataDir port info) w (fun v _ _ => v <> None).
Proof. ensure_walk; done. Qed.

Lemma ensure_converged_idle (version : Z) (address dataDir : string) (port : Z)
    (info : DialInfo) (w : World) :
  converged version w ->
  post (ensureMongoServerAt version address dataDir port info) w (fun _ _ l =>
    ops_where is_install l = [] /\ ops_where is_start l = [] /\
    ops_where is_initiate l = []).
Proof.
  intros (Hinst & Hrun & Hrs).
  ensure_walk.
  all: use_frame version; tests.
  all: try (rewrite Hsvc in *; done).
  all: try (exfalso; tauto).
  all: logs; rewrite ?app_nil_r; split_and!; try done.
  all: apply Hconf; congruence.
Qed.


Lemma ensure_success_converged (version : Z) (address dataDir : string) (port : Z)
    (info : DialInfo) (w : World) :
  post (ensureMongoServerAt version address dataDir port info) w (fun v w' _ =>
    v = Some nil -> converged version w').
Proof.
  ensure_walk.
  all: intros Hv; simplify_eq; try done.
  all: unfold converged; tests; unfold same_node, same_services in *.
  all: destruct Hnode as (Hs & Hr & _); world_simpl; rewrite Hs, Hr.
  all: split_and!.
  all: try (by rewrite lookup_insert_eq).
  all: try (by apply elem_of_union_l, elem_of_singleton).
  all: try done.
  all: match goal with
       | H : ?a = nil -> rsconf _ <> None |- _ => apply H; by destruct a
       end.
Qed.


Lemma ensure_legacy_gone (version : Z) (address dataDir : string) (port : Z)
    (info : DialInfo) (w : World) :
  post (ensureMongoServerAt version address dataDir port info) w (fun v w' _ =>
    v = Some nil -> forall nm, is_legacy_name version nm -> services w' !! nm = None).
Proof.
  ensure_walk.
  all: intros Hv; simplify_eq; try done.
  all: intros nm Hnm; unfold same_node, same_services in *.
  all: destruct Hnode as (Hs & _); world_simpl; rewrite Hs.
  all: assert (Hne : makeServiceName version <> nm)
         by (intros <-; by apply (makeServiceName_not_legacy version)).
  all: rewrite ?lookup_insert_ne by done.
  all: try (destruct Hjsame as (-> & _); world_simpl).
  all: apply Hgone; [by destruct a|done].
Qed.

Lemma ensure_installed_no_journal (version : Z) (address dataDir : string) (port : Z)
    (info : DialInfo) (w : World) :
  is_Some (services w !! makeServiceName version) ->
  post (ensureMongoServerAt version address dataDir port info) w (fun _ _ l =>
    ops_where is_journal_op l = []).
Proof.
  intros Hinst.
  ensure_walk.
  all: use_frame version; tests.
  all: try (rewrite Hsvc in *; done).
  all: logs; rewrite ?app_nil_r; done.
Qed.

(** The stop-and-remove requests of a convergence pass are those of the
    removal of the legacy definitions it begins with. *)
Lemma ensure_removal_requests (version : Z) (address dataDir : string) (port : Z)
    (info : DialInfo) (w : World) :
  ops_where is_removal_request (log (ensureMongoServerAt version address dataDir port info w))
  = ops_where is_removal_request (log (removeOldMongoServices version w)).
Proof.
  enough (post (ensureMongoServerAt version address dataDir port info) w (fun _ _ l =>
            ops_where is_removal_request l =
            ops_where is_removal_request (log (removeOldMongoServices version w)))) as H
    by exact H.
  unfold ensureMongoServerAt; cbv zeta.
  apply post_bind. unfold post at 1.
  generalize (removeOldMongoServices version w). intros r0.
  rewrite mongoUpstartService_eq; cbv beta iota zeta.
  unfold upstart.Installed, upstart.Install, upstart.Running, upstart.Start.
  cbv zeta. rewrite ?mongoUpstartService_name.
  repeat (ensure_step; cbn beta iota zeta delta [negb is_nil fst snd]).
  all: rewrite ops_where_app.
  all: match goal with
       | |- ?a ++ ?b = ?a => enough (b = []) as -> by apply app_nil_r
       end.
  all: logs; rewrite ?app_nil_r; reflexivity.
Qed.

Lemma ensure_fixed_path (version : Z) (address dataDir : string) (port : Z)
    (info : DialInfo) (w : World) :
  post (ensureMongoServerAt version address dataDir port info) w (fun _ _ l =>
    ops_where is_path_lookup l = [] /\
    (ops_where is_install l = [] \/
     exists o, ops_where is_install l =
       [(OpInstall (fst (mongoUpstartService (makeServiceName version) dataDir
                           (filepath_Join [dataDir; "db"]) port)), o)])).
Proof.
  ensure_walk.
  all: logs; rewrite ?app_nil_r; split; [done|]; eauto.
Qed.


(** * The claims *)



Lemma HasPrefix_append (sub post : string) : HasPrefix (sub +:+ post) sub = true.
Proof.
  induction sub as [|c sub IH]; [reflexivity|].
  rewrite append_String. cbn [HasPrefix]. by rewrite Ascii.eqb_refl.
Qed.

Lemma Contains_skip (pre t sub : string) :
  Contains t sub = true -> Contains (pre +:+ t) sub = true.
Proof.
  intros H. induction pre as [|c pre IH]; [exact H|].
  rewrite append_String. cbn [Contains]. rewrite IH. apply orb_true_r.
Qed.

Lemma Contains_intro (pre sub post : string) :
  Contains (pre +:+ sub +:+ post) sub = true.
Proof.
  apply Contains_skip. destruct (sub +:+ post) eqn:E; cbn [Contains].
  - destruct sub; [reflexivity|discriminate E].
  - rewrite <- E, HasPrefix_append. reflexivity.
Qed.

(** Below the first versioned script, only the old name is gone after. *)
Lemma removeOldMongoServices_old_only (curVersion : Z) (w : World) :
  curVersion <= 2 ->
  post (removeOldMongoServices curVersion) w (fun err _ l =>
    ops_where is_removal_request l =
      [(OpStopAndRemove oldMongoServiceName, outcome_of err)] /\
    Forall (fun ev => removal_target (fst ev) = Some oldMongoServiceName) l).
Proof.
  intros Hv. unfold removeOldMongoServices.
  replace (Z.to_nat (curVersion - 2)) with 0%nat by lia. cbn [removeOldVersions].
  apply post_bind. eapply post_mono; [apply StopAndRemove_spec|].
  cbn [upstart.NewService Name].
  intros err w1 l1 (_ & Htarget & _ & _ & _ & _ & _ & _ & _ & _ & Hreq).
  destruct err; cbn beta iota zeta delta [negb is_nil]; apply post_ret;
    rewrite app_nil_r; done.
Qed.

(** C2. Invoking [ensureMongoServer] a second time on a node where
    convergence already fully succeeded performs no install, no start and no
    initiate operation on the second call, whatever the second call's
    arguments and whatever fails during it: after the first call has
    returned success the definition is installed, the job runs and the
    replica set has a configuration. *)
Theorem second_call_idle (address dataDir : string) (port : Z) (info : DialInfo)
    (address' dataDir' : string) (port' : Z) (info' : DialInfo) (w : World) :
  let first := ensureMongoServer address dataDir port info w in
  val first = Some nil ->
  let second := ensureMongoServer address' dataDir' port' info' (world first) in
  converged mongoScriptVersion (world first) /\
  ops_where is_install (log second) = [] /\
  ops_where is_start (log second) = [] /\
  ops_where is_initiate (log second) = [].
Proof.
  intros first Hok second.
  pose proof (ensure_success_converged mongoScriptVersion address dataDir port info w
                Hok) as Hconv.
  split; [exact Hconv|].
  exact (ensure_converged_idle mongoScriptVersion address' dataDir' port' info'
           (world first) Hconv).
Qed.

(** C3. [ensureMongoServer] short-circuits on the first failure: in every
    execution in which the supervisor's install fails, no start and no
    initiate is attempted; in every execution in which dialing the database
    fails, no config query and no initiate is attempted. *)
Theorem fatal_short_circuit (address dataDir : string) (port : Z) (info : DialInfo)
    (w : World) :
  let l := log (ensureMongoServer address dataDir port info w) in
  (List.filter install_failed l <> [] ->
     ops_where is_start l = [] /\ ops_where is_initiate l = []) /\
  (List.filter dial_failed l <> [] ->
     ops_where is_query l = [] /\ ops_where is_initiate l = []).
Proof.
  exact (ensure_short_circuit mongoScriptVersion address dataDir port info w).
Qed.

(** C4. For any current version N >= 2 and whichever legacy definitions
    were installed before, after a successful convergence pass no definition
    named for a version below N remains: the specially-named [juju-db],
    which is the name the versions before 2 used, is absent, and so is
    [juju-db-vV] for every V from 2 up to N.  For a version N below 2 (and
    for 2 itself) the one removal requested is that of [juju-db], and
    nothing else is stopped or deleted. *)
Theorem legacy_cleanup_complete (N : Z) (address dataDir : string) (port : Z)
    (info : DialInfo) (w : World) :
  (2 <= N ->
   val (ensureMongoServerAt N address dataDir port info w) = Some nil ->
   let w' := world (ensureMongoServerAt N address dataDir port info w) in
   services w' !! oldMongoServiceName = None /\
   forall v, 2 <= v < N -> services w' !! makeServiceName v = None) /\
  (N <= 2 ->
   let r := removeOldMongoServices N w in
   ops_where is_removal_request (log r) =
     [(OpStopAndRemove oldMongoServiceName, outcome_of (val r))] /\
   Forall (fun ev => removal_target (fst ev) = Some oldMongoServiceName) (log r)).
Proof.
  split.
  - intros _ Hok w'.
    pose proof (ensure_legacy_gone N address dataDir port info w Hok) as Hgone.
    split.
    + apply Hgone. by left.
    + intros v Hv. apply Hgone. right. exists v. done.
  - intros HN. exact (removeOldMongoServices_old_only N w HN).
Qed.

(** C6. For every service name, data directory and port, the command line
    that [mongoUpstartService] builds contains each of the fixed invocation
    parameters: [--auth], [--sslOnNormalPorts], [--sslPEMKeyFile] followed by
    the shell-quoted path of [server.pem] in the data directory,
    [--bind_ip 0.0.0.0], [--port] followed by the given port, [--noprealloc],
    [--syslog], [--smallfiles], and [--replSet juju]. *)
Theorem fixed_invocation_parameters (name dataDir dbDir : string) (port : Z) :
  let cmd := Cmd (fst (mongoUpstartService name dataDir dbDir port)) in
  Contains cmd " --auth " = true /\
  Contains cmd " --sslOnNormalPorts " = true /\
  Contains cmd (" --sslPEMKeyFile " +:+ ShQuote (Join [dataDir; "server.pem"]) +:+ " ")
    = true /\
  Contains cmd " --bind_ip 0.0.0.0 " = true /\
  Contains cmd (" --port " +:+ itoa port +:+ " ") = true /\
  Contains cmd " --noprealloc " = true /\
  Contains cmd " --syslog " = true /\
  Contains cmd " --smallfiles " = true /\
  Contains cmd (" --replSet " +:+ replicaSetName) = true.
Proof.
  cbv zeta. cbn [mongoUpstartService fst Cmd].
  set (key := ShQuote (Join [dataDir; "server.pem"])).
  set (p := itoa port).
  assert (Hsub : forall cmd pre sub post,
            cmd = pre +:+ sub +:+ post -> Contains cmd sub = true).
  { intros cmd pre sub post ->. apply Contains_intro. }
  split_and!.
  - apply (Hsub _ "/usr/bin/mongod" _
             ("--dbpath=" +:+ dbDir +:+ " --sslOnNormalPorts --sslPEMKeyFile " +:+ key
              +:+ " --sslPEMKeyPassword ignored --bind_ip 0.0.0.0 --port " +:+ p
              +:+ " --noprealloc --syslog --smallfiles --replSet juju")).
    reflexivity.
  - apply (Hsub _ ("/usr/bin/mongod --auth --dbpath=" +:+ dbDir) _
             ("--sslPEMKeyFile " +:+ key
              +:+ " --sslPEMKeyPassword ignored --bind_ip 0.0.0.0 --port " +:+ p
              +:+ " --noprealloc --syslog --smallfiles --replSet juju")).
    rewrite !append_assoc. reflexivity.
  - apply (Hsub _ ("/usr/bin/mongod --auth --dbpath=" +:+ dbDir +:+ " --sslOnNormalPorts")
             _ ("--sslPEMKeyPassword ignored --bind_ip 0.0.0.0 --port " +:+ p
                +:+ " --noprealloc --syslog --smallfiles --replSet juju")).
    rewrite !append_assoc. reflexivity.
  - apply (Hsub _ ("/usr/bin/mongod --auth --dbpath=" +:+ dbDir
                   +:+ " --sslOnNormalPorts --sslPEMKeyFile " +:+ key
                   +:+ " --sslPEMKeyPassword ignored") _
             ("--port " +:+ p +:+ " --noprealloc --syslog --smallfiles --replSet juju")).
    rewrite !append_assoc. reflexivity.
  - apply (Hsub _ ("/usr/bin/mongod --auth --dbpath=" +:+ dbDir
                   +:+ " --sslOnNormalPorts --sslPEMKeyFile " +:+ key
                   +:+ " --sslPEMKeyPassword ignored --bind_ip 0.0.0.0") _
             "--noprealloc --syslog --smallfiles --replSet juju").
    rewrite !append_assoc. reflexivity.
  - apply (Hsub _ ("/usr/bin/mongod --auth --dbpath=" +:+ dbDir
                   +:+ " --sslOnNormalPorts --sslPEMKeyFile " +:+ key
                   +:+ " --sslPEMKeyPassword ignored --bind_ip 0.0.0.0 --port " +:+ p) _
             "--syslog --smallfiles --replSet juju").
    rewrite !append_assoc. reflexivity.
  - apply (Hsub _ ("/usr/bin/mongod --auth --dbpath=" +:+ dbDir
                   +:+ " --sslOnNormalPorts --sslPEMKeyFile " +:+ key
                   +:+ " --sslPEMKeyPassword ignored --bind_ip 0.0.0.0 --port " +:+ p
                   +:+ " --noprealloc") _
             "--smallfiles --replSet juju").
    rewrite !append_assoc. reflexivity.
  - apply (Hsub _ ("/usr/bin/mongod --auth --dbpath=" +:+ dbDir
                   +:+ " --sslOnNormalPorts --sslPEMKeyFile " +:+ key
                   +:+ " --sslPEMKeyPassword ignored --bind_ip 0.0.0.0 --port " +:+ p
                   +:+ " --noprealloc --syslog") _
             "--replSet juju").
    rewrite !append_assoc. reflexivity.
  - apply (Hsub _ ("/usr/bin/mongod --auth --dbpath=" +:+ dbDir
                   +:+ " --sslOnNormalPorts --sslPEMKeyFile " +:+ key
                   +:+ " --sslPEMKeyPassword ignored --bind_ip 0.0.0.0 --port " +:+ p
                   +:+ " --noprealloc --syslog --smallfiles") _ "").
    rewrite !append_assoc. reflexivity.
Qed.


(** C7. Within [ensureMongoServer] the journal preallocator runs only when
    the current definition is not yet installed: in every execution that
    starts with the definition of the current name installed, no directory
    is created and no preallocation file is opened or written. *)
Theorem journal_only_before_install (address dataDir : string) (port : Z)
    (info : DialInfo) (w : World) :
  is_Some (services w !! makeServiceName mongoScriptVersion) ->
  ops_where is_journal_op (log (ensureMongoServer address dataDir port info w)) = [].
Proof.
  intros Hinst.
  exact (ensure_installed_no_journal mongoScriptVersion address dataDir port info w Hinst).
Qed.

(** C10. For every input the command line built by [mongoUpstartService]
    begins with the hard-coded [/usr/bin/mongod], and [MongodPath] is never
    consulted: no run of [ensureMongoServer], in any world, stats a path or
    searches the path, and the only definition it ever installs is the
    builder's, so the installed service runs the fixed system path whatever
    [MongodPath] would report. *)
Theorem fixed_mongod_path (name address dataDir dbDir : string) (port : Z)
    (info : DialInfo) (w : World) :
  let l := log (ensureMongoServer address dataDir port info w) in
  HasPrefix (Cmd (fst (mongoUpstartService name dataDir dbDir port)))
            "/usr/bin/mongod " = true /\
  ops_where is_path_lookup l = [] /\
  Forall (fun ev => exists c, fst ev = OpInstall c /\
                              HasPrefix (Cmd c) "/usr/bin/mongod " = true)
         (ops_where is_install l).
Proof.
  intros l. split; [reflexivity|].
  destruct (ensure_fixed_path mongoScriptVersion address dataDir port info w)
    as [Hlook Hinst].
  split; [exact Hlook|].
  fold (ensureMongoServer address dataDir port info w) in Hinst. fold l in Hinst.
  clearbody l. destruct Hinst as [->|[o ->]]; [constructor|].
  constructor; [|constructor]. eexists. split; reflexivity.
Qed.


(** ** Directory entries *)

Lemma strip_prefix_Some (pre s n : string) :
  strip_prefix pre s = Some n <-> s = pre +:+ n.
Proof.
  revert s. induction pre as [|c pre IH]; intros s; cbn [strip_prefix].
  - rewrite append_empty_l. split; congruence.
  - rewrite append_String. destruct s as [|d s]; [split; discriminate|].
    destruct (Ascii.eqb_spec c d) as [->|Hne].
    + rewrite IH. split; congruence.
    + split; [discriminate|]. intros [= ? ?]. done.
Qed.

Lemma child_name_Some (dir k n : string) :
  child_name dir k = Some n <->
  k = dir +:+ "/" +:+ n /\ n <> "" /\ no_slash n = true.
Proof.
  unfold child_name. destruct (strip_prefix (dir +:+ "/") k) as [m|] eqn:Hm.
  - apply strip_prefix_Some in Hm. rewrite append_assoc in Hm. subst k.
    destruct (String.eqb_spec m "") as [->|Hne]; cbn [negb andb].
    + split; [discriminate|]. intros (Heq & Hn & _).
      apply (inj (String.append dir)), (inj (String.append "/")) in Heq. congruence.
    + destruct (no_slash m) eqn:Hs.
      * split; [intros [= <-]; done|]. intros (Heq & _).
        apply (inj (String.append dir)), (inj (String.append "/")) in Heq. congruence.
      * split; [discriminate|]. intros (Heq & _ & Hs').
        apply (inj (String.append dir)), (inj (String.append "/")) in Heq. congruence.
  - split; [discriminate|]. intros (-> & _).
    assert (strip_prefix (dir +:+ "/") (dir +:+ "/" +:+ n) = Some n) as Hn.
    { apply strip_prefix_Some. by rewrite append_assoc. }
    congruence.
Qed.

Lemma elem_of_entries (w : World) (dir n : string) :
  n ∈ entries w dir <->
  n <> "" /\ no_slash n = true /\ is_Some (fs w !! (dir +:+ "/" +:+ n)).
Proof.
  unfold entries. rewrite elem_of_set_omap. split.
  - intros (k & Hk & Hn). apply child_name_Some in Hn as (-> & Hne & Hs).
    apply elem_of_dom in Hk. done.
  - intros (Hne & Hs & Hk). exists (dir +:+ "/" +:+ n). split.
    + by apply elem_of_dom.
    + by apply child_name_Some.
Qed.

Lemma child_not_parent (J n : string) :
  J +:+ "/" +:+ n ∉ J :: rev (os.parents_from "" J).
Proof.
  assert (Hlen : (String.length J < String.length (J +:+ "/" +:+ n))%nat).
  { rewrite !length_append. cbn. lia. }
  intros [Heq|Hin]%elem_of_cons.
  - rewrite Heq in Hlen. lia.
  - apply list_elem_of_In, in_rev, list_elem_of_In, parents_from_length in Hin.
    cbn in Hin. lia.
Qed.

(** C5, as the code has it. For every data directory on which
    [makeJournalDirs] succeeds, the [journal] subdirectory exists, with mode
    0700 when the call created it and with the mode it had otherwise; it
    holds [prealloc.0] to [prealloc.2], each exactly 1 MiB of zero bytes
    (created with mode 0700), written as 16 chunks of 64 KiB; and these
    three names are all that the call adds to the directory's entries, so
    they are its only entries when it held none before. *)
Theorem journal_preallocated (dir : string) (w : World) :
  val (makeJournalDirs dir w) = Some nil ->
  (exists m, fs (world (makeJournalDirs dir w)) !! Join [dir; "journal"] = Some (Dir m) /\
             (fs w !! Join [dir; "journal"] = None -> m = 448) /\
             (forall m0, fs w !! Join [dir; "journal"] = Some (Dir m0) -> m = m0)) /\
  (forall v, 0 <= v < 3 ->
     exists p, fs (world (makeJournalDirs dir w)) !! prealloc_path (Join [dir; "journal"]) v =
                 Some (File p (repeat Byte.x00 (Z.to_nat (1024 * 1024)))) /\
               (fs w !! prealloc_path (Join [dir; "journal"]) v = None -> p = 448)) /\
  ops_where is_write (log (makeJournalDirs dir w)) =
    flat_map (fun v => repeat (OpWrite (prealloc_path (Join [dir; "journal"]) v) 65536, Ok) 16)
             [0; 1; 2] /\
  entries (world (makeJournalDirs dir w)) (Join [dir; "journal"]) =
    entries w (Join [dir; "journal"]) ∪ {[ "prealloc.0"; "prealloc.1"; "prealloc.2" ]}.
Proof.
  pose proof (makeJournalDirs_spec dir w) as Hspec. unfold post in Hspec.
  revert Hspec. generalize (makeJournalDirs dir w). intros r.
  set (J := Join [dir; "journal"]). cbv zeta.
  intros (_ & _ & _ & Hframe & Hok) Hval.
  destruct (Hok Hval) as (Hdir & Hfiles & Hlog).
  split; [exact Hdir|]. split; [exact Hfiles|]. split; [exact Hlog|].
  assert (Hthree : forall n, n ∈ ({[ "prealloc.0"; "prealloc.1"; "prealloc.2" ]} : gset string)
                    <-> exists v, 0 <= v < 3 /\ n = "prealloc." +:+ itoa v).
  { intros n. rewrite !elem_of_union, !elem_of_singleton. split.
    - intros [[->| ->]| ->]; [exists 0|exists 1|exists 2]; (split; [lia|reflexivity]).
    - intros (v & Hv & ->).
      assert (v = 0 \/ v = 1 \/ v = 2) as [->|[->| ->]] by lia; auto. }
  apply set_eq. intros n. rewrite elem_of_union, !elem_of_entries, Hthree.
  destruct (decide (n ∈ ({[ "prealloc.0"; "prealloc.1"; "prealloc.2" ]} : gset string)))
    as [Hin|Hout].
  - apply Hthree in Hin as (v & Hv & ->). split; [intros _; right; eauto|]. intros _.
    destruct (Hfiles v Hv) as (p & Hp & _). unfold prealloc_path in Hp.
    pose proof (plain_prealloc v) as Hplain. unfold plain in Hplain.
    apply andb_true_iff in Hplain as [Hplain Hs].
    apply andb_true_iff in Hplain as [Hplain _].
    apply andb_true_iff in Hplain as [Hne _].
    apply negb_true_iff, String.eqb_neq in Hne.
    split_and!; [done..|]. rewrite Hp. eauto.
  - assert (Hsame : fs (world r) !! (J +:+ "/" +:+ n) = fs w !! (J +:+ "/" +:+ n)).
    { apply Hframe; [apply child_not_parent|].
      intros v Hv Heq. unfold prealloc_path in Heq.
      apply (inj (String.append J)), (inj (String.append "/")) in Heq.
      apply Hout, Hthree. eauto. }
    rewrite Hsame. split; [auto|]. intros [H|H]; [done|]. by apply Hthree in H.
Qed.


(** C8, as the code has it. The end-to-end scenario: the request with
    address 10.0.0.1, data directory /var/lib/x and port 37017, on a node
    whose data directory is empty, at version 2, with no legacy service
    installed and nothing failing.  One legacy removal is attempted: the
    stop-and-remove request for [juju-db], which finds nothing installed, so
    that no definition is stopped or deleted; the three
    preallocation files are created, each 1 MiB of zero bytes; one
    definition, [juju-db-v2], is installed and started, whose command line
    contains [--port 37017] and [--replSet juju]; one config query reports
    not-found and one initiate names the seed 10.0.0.1:37017; the call
    returns success. *)
Theorem end_to_end_scenario (info : DialInfo) :
  let r := ensureMongoServer "10.0.0.1" "/var/lib/x" 37017 info (fresh_node no_faults) in
  let conf := fst (mongoUpstartService "juju-db-v2" "/var/lib/x" "/var/lib/x/db" 37017) in
  val r = Some nil /\
  ops_where is_removal (log r) = [] /\
  ops_where is_removal_request (log r) = [(OpStopAndRemove "juju-db", Ok)] /\
  ops_where is_open (log r) =
    [(OpOpenFile "/var/lib/x/db/journal/prealloc.0" 577 448, Ok);
     (OpOpenFile "/var/lib/x/db/journal/prealloc.1" 577 448, Ok);
     (OpOpenFile "/var/lib/x/db/journal/prealloc.2" 577 448, Ok)] /\
  entries (world r) "/var/lib/x/db/journal" =
    {[ "prealloc.0"; "prealloc.1"; "prealloc.2" ]} /\
  zero_filled (world r) "/var/lib/x/db/journal/prealloc.0" = Some (448, 1048576%N) /\
  zero_filled (world r) "/var/lib/x/db/journal/prealloc.1" = Some (448, 1048576%N) /\
  zero_filled (world r) "/var/lib/x/db/journal/prealloc.2" = Some (448, 1048576%N) /\
  ops_where is_install (log r) = [(OpInstall conf, Ok)] /\
  services (world r) = {[ "juju-db-v2" := conf ]} /\
  ops_where is_start (log r) = [(OpStart "juju-db-v2", Ok)] /\
  running (world r) = {[ "juju-db-v2" ]} /\
  Contains (Cmd conf) " --port 37017 " = true /\
  Contains (Cmd conf) " --replSet juju" = true /\
  ops_where is_query (log r) = [(OpCurrentConfig, Failed ErrNotFound)] /\
  ops_where is_initiate (log r) = [(OpInitiate "10.0.0.1:37017" "juju", Ok)] /\
  rsconf (world r) = Some {| rsName := "juju"; rsMembers := ["10.0.0.1:37017"] |}.
Proof.
  assert (Hsub : forall cmd pre sub post,
            cmd = pre +:+ sub +:+ post -> Contains cmd sub = true).
  { intros cmd pre sub post ->. apply Contains_intro. }
  intros r conf.
  pose (summary := fun r : Res (option error) =>
    (val r, ops_where is_removal (log r), ops_where is_removal_request (log r),
     ops_where is_open (log r), entries (world r) "/var/lib/x/db/journal",
     zero_filled (world r) "/var/lib/x/db/journal/prealloc.0",
     zero_filled (world r) "/var/lib/x/db/journal/prealloc.1",
     zero_filled (world r) "/var/lib/x/db/journal/prealloc.2",
     ops_where is_install (log r), services (world r), ops_where is_start (log r),
     running (world r), ops_where is_query (log r), ops_where is_initiate (log r),
     rsconf (world r))).
  assert (Hrun : summary r =
    (Some nil, [], [(OpStopAndRemove "juju-db", Ok)],
     [(OpOpenFile "/var/lib/x/db/journal/prealloc.0" 577 448, Ok);
      (OpOpenFile "/var/lib/x/db/journal/prealloc.1" 577 448, Ok);
      (OpOpenFile "/var/lib/x/db/journal/prealloc.2" 577 448, Ok)],
     {[ "prealloc.0"; "prealloc.1"; "prealloc.2" ]},
     Some (448, 1048576%N), Some (448, 1048576%N), Some (448, 1048576%N),
     [(OpInstall conf, Ok)], {[ "juju-db-v2" := conf ]},
     [(OpStart "juju-db-v2", Ok)], {[ "juju-db-v2" ]},
     [(OpCurrentConfig, Failed ErrNotFound)],
     [(OpInitiate "10.0.0.1:37017" "juju", Ok)],
     Some {| rsName := "juju"; rsMembers := ["10.0.0.1:37017"] |})).
  { subst r conf summary. vm_compute. reflexivity. }
  clearbody r. subst summary. cbv beta in Hrun.
  repeat match type of Hrun with
         | (_, _) = (_, _) => apply pair_equal_spec in Hrun as [Hrun ?]
         end.
  split_and!; try assumption.
  - apply (Hsub _ ("/usr/bin/mongod --auth --dbpath=/var/lib/x/db --sslOnNormalPorts"
                   +:+ " --sslPEMKeyFile " +:+ ShQuote "/var/lib/x/server.pem"
                   +:+ " --sslPEMKeyPassword ignored --bind_ip 0.0.0.0") _
             "--noprealloc --syslog --smallfiles --replSet juju").
    rewrite !append_assoc. subst conf. vm_compute. reflexivity.
  - apply (Hsub _ ("/usr/bin/mongod --auth --dbpath=/var/lib/x/db --sslOnNormalPorts"
                   +:+ " --sslPEMKeyFile " +:+ ShQuote "/var/lib/x/server.pem"
                   +:+ " --sslPEMKeyPassword ignored --bind_ip 0.0.0.0 --port 37017"
                   +:+ " --noprealloc --syslog --smallfiles") _ "").
    rewrite !append_assoc. subst conf. vm_compute. reflexivity.
Qed.


(** * More of the package *)

(** ** The mongod locator *)

Lemma Stat_spec (path : string) (w : World) :
  post (os.Stat path) w (fun r w' l =>
    w' = next_tick w /\
    l = [(OpStat path, outcome_of (snd r))] /\
    (snd r = nil <-> faults w (tick w) (OpStat path) = None /\ is_Some (fs w !! path))).
Proof.
  unfold os.Stat. wp; cbn [snd]; split_and!; try done.
  all: first [split; [discriminate|intros [? [? ?]]; congruence] | split; [eauto|done]].
Qed.

Lemma find_first {A} (p : A -> bool) (before after : list A) (x : A) :
  Forall (fun a => p a = false) before -> p x = true ->
  List.find p (before ++ x :: after) = Some x.
Proof.
  intros Hb Hx. induction Hb as [|a before Ha _ IH]; cbn [app List.find].
  - by rewrite Hx.
  - by rewrite Ha.
Qed.

Lemma path_entry_nonempty (dir file : string) : path_entry dir file <> "".
Proof.
  unfold path_entry. destruct (String.eqb_spec dir "") as [->|Hne].
  - discriminate.
  - destruct dir; [done|discriminate].
Qed.

Lemma LookPath_spec (file : string) (w : World) :
  Contains file "/" = false ->
  post (exec.LookPath file) w (fun r w' l =>
    w' = next_tick w /\
    l = [(OpLookPath file, outcome_of (snd r))] /\
    match List.find (exec.findExecutable w) (map (fun dir => path_entry dir file) (search_path w)) with
    | Some p => r = (p, nil)
    | None => r = ("", ErrorString ("exec: " +:+ file +:+ ": executable file not found in $PATH"))
    end).
Proof.
  intros Hplain. unfold exec.LookPath. apply post_bind, post_get. rewrite Hplain.
  fold (path_entry).
  change (map _ (search_path w)) with (map (fun dir => path_entry dir file) (search_path w)).
  destruct (List.find _ _); apply post_report; done.
Qed.

(** X1. When the juju-bundled mongod is there and the stat of it does not
    fail, [MongodPath] returns its path with no error, and does not search
    the path: the stat is the one operation of the run.  What is at that
    path, and whether it can be executed, is not looked at. *)
Theorem bundled_mongod_preferred (w : World) :
  is_Some (fs w !! JujuMongodPath) ->
  faults w (tick w) (OpStat JujuMongodPath) = None ->
  val (MongodPath w) = (JujuMongodPath, nil) /\
  log (MongodPath w) = [(OpStat JujuMongodPath, Ok)].
Proof.
  intros Hthere Hok.
  enough (post MongodPath w (fun v _ l =>
            v = (JujuMongodPath, nil) /\ l = [(OpStat JujuMongodPath, Ok)])) as H
    by exact H.
  unfold MongodPath. apply post_bind.
  eapply post_mono; [apply Stat_spec|].
  intros [n err] w1 l1. cbn [snd]. intros (-> & -> & Herr).
  destruct (decide (err = nil)) as [->|Hne]; [|by destruct Hne; apply Herr].
  apply post_ret. done.
Qed.

(** X2. When the bundled mongod is absent, or the stat of it fails,
    [MongodPath] returns the mongod of the first directory of the search
    path that holds an executable file of that name, in the order of the
    path. *)
Theorem mongod_from_search_path (w : World) (before after : list string) (dir : string) :
  fs w !! JujuMongodPath = None \/ is_Some (faults w (tick w) (OpStat JujuMongodPath)) ->
  search_path w = before ++ dir :: after ->
  Forall (fun d => exec.findExecutable w (path_entry d "mongod") = false) before ->
  exec.findExecutable w (path_entry dir "mongod") = true ->
  val (MongodPath w) = (path_entry dir "mongod", nil).
Proof.
  intros Hgone Hpath Hbefore Hdir.
  enough (post MongodPath w (fun v _ _ => v = (path_entry dir "mongod", nil))) as H
    by exact H.
  unfold MongodPath. apply post_bind.
  eapply post_mono; [apply Stat_spec|].
  intros [n err] w1 l1. cbn [snd]. intros (-> & -> & Herr).
  destruct (decide (err = nil)) as [->|Hne].
  { destruct Herr as [Herr _]. destruct (Herr eq_refl) as [Hf Hs].
    destruct Hgone as [Hgone|Hgone].
    - rewrite Hgone in Hs. by destruct Hs.
    - rewrite Hf in Hgone. by destruct Hgone. }
  assert (Hfail : is_nil err = false) by (by destruct err).
  rewrite Hfail. apply post_bind.
  eapply post_mono; [by apply LookPath_spec|].
  intros [p e] w2 l2 (-> & -> & Hfind).
  change (exec.findExecutable (next_tick w)) with (exec.findExecutable w) in Hfind.
  change (search_path (next_tick w)) with (search_path w) in Hfind.
  rewrite Hpath, map_app in Hfind. cbn [map] in Hfind.
  rewrite (find_first _ _ _ (path_entry dir "mongod")) in Hfind.
  - injection Hfind as -> ->. cbn [negb is_nil snd]. apply post_ret. done.
  - by apply Forall_map.
  - exact Hdir.
Qed.

(** X3. [MongodPath] returns an error exactly when it returns the empty
    path; a path it returns without error is the bundled one or names an
    executable file.  It only stats and searches: the supervisor, the file
    system, the open files and the cluster are left as they are. *)
Theorem mongod_path_or_error (w : World) :
  let r := MongodPath w in
  (snd (val r) = nil <-> fst (val r) <> "") /\
  (snd (val r) = nil ->
     fst (val r) = JujuMongodPath \/ exec.findExecutable w (fst (val r)) = true) /\
  only is_path_lookup (log r) /\
  services (world r) = services w /\ running (world r) = running w /\
  fs (world r) = fs w /\ fdtable (world r) = fdtable w /\ rsconf (world r) = rsconf w.
Proof.
  cbv zeta.
  enough (post MongodPath w (fun v w' l =>
            (snd v = nil <-> fst v <> "") /\
            (snd v = nil -> fst v = JujuMongodPath \/ exec.findExecutable w (fst v) = true) /\
            only is_path_lookup l /\
            services w' = services w /\ running w' = running w /\
            fs w' = fs w /\ fdtable w' = fdtable w /\ rsconf w' = rsconf w)) as H
    by exact H.
  unfold MongodPath. apply post_bind.
  eapply post_mono; [apply Stat_spec|].
  intros [n err] w1 l1. cbn [snd]. intros (-> & -> & _).
  destruct (is_nil err) eqn:Herr.
  { apply post_ret. cbn [fst snd]. split_and!; try done. auto. }
  apply post_bind. eapply post_mono; [by apply LookPath_spec|].
  intros [p e] w2 l2 (-> & -> & Hfind).
  change (exec.findExecutable (next_tick w)) with (exec.findExecutable w) in Hfind.
  destruct (List.find _ _) as [q|] eqn:Hq; injection Hfind as -> ->;
    cbn [negb is_nil snd]; apply post_ret; cbn [fst snd]; split_and!; try done.
  - apply find_some in Hq as [Hin Hex]. apply in_map_iff in Hin as (d & <- & _).
    split; [intros _; apply path_entry_nonempty|done].
  - apply find_some in Hq as [_ Hex]. auto.
Qed.

(** ** Service names and the order of the removals *)

(** X4. [makeServiceName] gives different versions different names, none
    of them the old name [juju-db], and all of them with the prefix
    [juju-db-v]. *)
Theorem service_names_distinct (a b : Z) :
  (makeServiceName a = makeServiceName b <-> a = b) /\
  makeServiceName a <> oldMongoServiceName /\
  HasPrefix (makeServiceName a) (oldMongoServiceName +:+ "-v") = true.
Proof.
  split_and!.
  - split; [apply makeServiceName_inj|by intros ->].
  - intros H. symmetry in H. by apply makeServiceName_not_old in H.
  - apply (HasPrefix_append "juju-db-v").
Qed.

Lemma requests_of_cons (nm : string) (names : list string) (err : error) (l1 l2 : list Event) :
  ops_where is_removal_request l1 = [removed nm] ->
  requests_of names err l2 ->
  requests_of (nm :: names) err (l1 ++ l2).
Proof.
  unfold requests_of.
  intros H1 [[-> H2]|(Hne & gone & nm' & rest & -> & H2)]; rewrite ops_where_app, H1, H2.
  - by left.
  - right. split; [done|]. by exists (nm :: gone), nm', rest.
Qed.

Lemma requests_of_failed (nm : string) (names : list string) (err : error) (l : list Event) :
  err <> nil ->
  ops_where is_removal_request l = [(OpStopAndRemove nm, outcome_of err)] ->
  requests_of (nm :: names) err l.
Proof.
  intros Hne H. right. split; [done|]. exists [], nm, names. split; [done|].
  rewrite H. by destruct err.
Qed.

Lemma removeOldVersions_requests (n : nat) : forall (x : Z) (w : World),
  post (removeOldVersions n x) w (fun err _ l =>
    requests_of (map makeServiceName (seqZ x (Z.of_nat n))) err l).
Proof.
  induction n as [|n IH]; intros x w.
  - apply post_ret. by left.
  - cbn [removeOldVersions]. rewrite (seqZ_cons x) by lia. cbn [map].
    replace (Z.pred (Z.of_nat (S n))) with (Z.of_nat n) by lia.
    replace (Z.succ x) with (x + 1) by lia.
    apply post_bind. eapply post_mono; [apply StopAndRemove_spec|].
    cbn [upstart.NewService Name].
    intros err w1 l1 (_ & _ & _ & _ & _ & _ & _ & _ & _ & _ & Hreq).
    destruct (decide (err = nil)) as [->|Hne].
    + cbn beta iota zeta delta [negb is_nil].
      eapply post_mono; [apply IH|]. intros err w2 l2 H2.
      by apply requests_of_cons.
    + replace (negb (is_nil err)) with true by (by destruct err).
      apply post_ret. rewrite app_nil_r. by apply requests_of_failed.
Qed.

(** X5. [removeOldMongoServices] asks for the removals in a fixed order,
    the old name first and then the versions from 2 upwards, and stops at
    the first one that fails, whose error it returns as it is: when it
    returns nil every legacy name was asked for, with success; otherwise the
    requests are the successful ones up to the failed one, and none after
    it. *)
Theorem legacy_removed_in_order (curVersion : Z) (w : World) :
  requests_of (legacy_names curVersion)
    (val (removeOldMongoServices curVersion w)) (log (removeOldMongoServices curVersion w)).
Proof.
  enough (post (removeOldMongoServices curVersion) w (fun err _ l =>
            requests_of (legacy_names curVersion) err l)) as H by exact H.
  unfold removeOldMongoServices, legacy_names.
  apply post_bind. eapply post_mono; [apply StopAndRemove_spec|].
  cbn [upstart.NewService Name].
  intros err w1 l1 (_ & _ & _ & _ & _ & _ & _ & _ & _ & _ & Hreq).
  destruct (decide (err = nil)) as [->|Hne].
  - cbn beta iota zeta delta [negb is_nil].
    eapply post_mono; [apply removeOldVersions_requests|]. intros err w2 l2 H2.
    apply requests_of_cons; [done|].
    destruct (decide (0 <= curVersion - 2)).
    + by rewrite Z2Nat.id in H2.
    + replace (Z.to_nat (curVersion - 2)) with 0%nat in H2 by lia.
      rewrite seqZ_nil by lia. exact H2.
  - replace (negb (is_nil err)) with true by (by destruct err).
    apply post_ret. rewrite app_nil_r. by apply requests_of_failed.
Qed.
(** ** What the removals leave alone *)

Lemma StopAndRemove_shrinks (s : Service) (w : World) :
  post (upstart.StopAndRemove s) w (fun _ w' _ =>
    services w' ⊆ services w /\ running w' ⊆ running w).
Proof.
  unfold upstart.StopAndRemove, upstart.Stop.
  wp; world_simpl; split; try done; try apply delete_subseteq; apply subseteq_difference_l; done.
Qed.

Lemma removeOldVersions_shrinks (n : nat) : forall (x : Z) (w : World),
  post (removeOldVersions n x) w (fun _ w' _ =>
    services w' ⊆ services w /\ running w' ⊆ running w).
Proof.
  induction n as [|n IH]; intros x w.
  - apply post_ret. done.
  - cbn [removeOldVersions]. apply post_bind.
    eapply post_mono; [apply StopAndRemove_shrinks|].
    intros err w1 l1 [Hs1 Hr1].
    destruct (negb (is_nil err)); [by apply post_ret|].
    eapply post_mono; [apply IH|]. intros err2 w2 l2 [Hs2 Hr2].
    split; etrans; eassumption.
Qed.

(** X6. [removeOldMongoServices] only removes: the definitions installed
    and the jobs running afterwards are among those before, and the file
    system, the open files and the cluster are as they were, whether it
    succeeds or fails. *)
Theorem legacy_removal_only_removes (curVersion : Z) (w : World) :
  let w' := world (removeOldMongoServices curVersion w) in
  services w' ⊆ services w /\ running w' ⊆ running w /\
  fs w' = fs w /\ fdtable w' = fdtable w /\ rsconf w' = rsconf w.
Proof.
  cbv zeta.
  enough (post (removeOldMongoServices curVersion) w (fun _ w' _ =>
            services w' ⊆ services w /\ running w' ⊆ running w)) as (Hs & Hr).
  { pose proof (removeOldMongoServices_spec curVersion w) as (_ & _ & Hfs & Hfd & Hrs & _).
    done. }
  unfold removeOldMongoServices. apply post_bind.
  eapply post_mono; [apply StopAndRemove_shrinks|].
  intros err w1 l1 [Hs1 Hr1].
  destruct (negb (is_nil err)); [by apply post_ret|].
  eapply post_mono; [apply removeOldVersions_shrinks|]. intros err2 w2 l2 [Hs2 Hr2].
  split; etrans; eassumption.
Qed.

(** X7. [removeOldMongoServices] leaves every definition that is not a
    legacy one as it is, installed or not, running or not; the definition of
    the current version is one of them. *)
Theorem only_legacy_touched (curVersion : Z) (nm : string) (w : World) :
  ~ is_legacy_name curVersion nm ->
  services (world (removeOldMongoServices curVersion w)) !! nm = services w !! nm /\
  (nm ∈ running (world (removeOldMongoServices curVersion w)) <-> nm ∈ running w).
Proof.
  intros Hnm.
  pose proof (removeOldMongoServices_spec curVersion w) as (_ & _ & _ & _ & _ & Hframe & _).
  exact (Hframe nm Hnm).
Qed.

(** ** Removing the service *)

(** X8. [RemoveService] asks the supervisor for one removal, that of the
    definition of the current script version: on success that definition is
    gone; when it was not installed the call succeeds and nothing is stopped
    or deleted; no other definition or job is touched, legacy ones included,
    nor the file system, the open files or the cluster. *)
Theorem remove_service_scope (w : World) :
  let r := RemoveService w in
  let current := makeServiceName mongoScriptVersion in
  ops_where is_removal_request (log r) = [(OpStopAndRemove current, outcome_of (val r))] /\
  Forall (fun ev => removal_target (fst ev) = Some current) (log r) /\
  (val r = nil -> services (world r) !! current = None) /\
  (services w !! current = None -> val r = nil /\ ops_where is_removal (log r) = []) /\
  (forall nm, nm <> current ->
     services (world r) !! nm = services w !! nm /\
     (nm ∈ running (world r) <-> nm ∈ running w)) /\
  fs (world r) = fs w /\ fdtable (world r) = fdtable w /\ rsconf (world r) = rsconf w.
Proof.
  cbv zeta. unfold RemoveService.
  pose proof (StopAndRemove_spec (upstart.NewService (makeServiceName mongoScriptVersion)) w)
    as Hspec.
  unfold post in Hspec. revert Hspec.
  generalize (upstart.StopAndRemove (upstart.NewService (makeServiceName mongoScriptVersion)) w).
  cbn [upstart.NewService Name]. intros r.
  intros (Ho & Htarget & Hfs & Hfd & Hrs & Hsv & Hrun & Hmono & Hgone & Hnoop & Hreq).
  split_and!; try done.
  - intros Hnone. destruct (Hnoop Hnone) as (Hv & -> & _). done.
  - intros nm Hnm. split; [by apply Hsv|by apply Hrun].
Qed.

(** X9. [RemoveService] undoes the install of [ensureMongoServer]: after a
    successful convergence followed by a successful removal neither the
    current definition nor a legacy one is installed, while the data on disk
    and the replica-set configuration stay. *)
Theorem remove_after_ensure (address dataDir : string) (port : Z) (info : DialInfo)
    (w : World) :
  let first := ensureMongoServer address dataDir port info w in
  let second := RemoveService (world first) in
  val first = Some nil -> val second = nil ->
  services (world second) !! makeServiceName mongoScriptVersion = None /\
  (forall nm, is_legacy_name mongoScriptVersion nm -> services (world second) !! nm = None) /\
  fs (world second) = fs (world first) /\
  rsconf (world second) = rsconf (world first) /\ rsconf (world second) <> None.
Proof.
  intros first second Hfirst Hsecond.
  pose proof (ensure_success_converged mongoScriptVersion address dataDir port info w Hfirst)
    as (_ & _ & Hrs).
  pose proof (ensure_legacy_gone mongoScriptVersion address dataDir port info w Hfirst)
    as Hlegacy.
  fold (ensureMongoServer address dataDir port info w) in Hrs, Hlegacy.
  fold first in Hrs, Hlegacy.
  pose proof (StopAndRemove_spec (upstart.NewService (makeServiceName mongoScriptVersion))
                (world first)) as Hspec.
  unfold post in Hspec. fold RemoveService in Hspec. fold second in Hspec.
  clearbody second first.
  destruct Hspec as (_ & _ & Hfs & _ & Hrsame & _ & _ & Hmono & Hgone & _).
  split_and!; try done.
  - by apply Hgone.
  - intros nm Hnm. by apply Hmono, Hlegacy.
  - by rewrite Hrsame.
Qed.

(** ** The session and the outcome of the bootstrap *)

(** X10. [initiateReplicaSet] dials once.  When the dial succeeds the
    session is closed exactly once, as the last operation of the call,
    whatever the config query and the initiate do; when the dial fails
    there is no session to close, and the error returned is the dial's,
    under its prefix. *)
Theorem session_closed_last (address : string) (port : Z) (info : DialInfo) (w : World) :
  let r := initiateReplicaSet address port info w in
  (ops_where is_dial (log r) = [(OpDial info, Ok)] /\
   ops_where is_session_close (log r) = [(OpSessionClose, Ok)] /\
   last (log r) = Some (OpSessionClose, Ok)) \/
  (exists e, ops_where is_dial (log r) = [(OpDial info, Failed e)] /\
             ops_where is_session_close (log r) = [] /\
             val r = ErrorString ("can't dial mongo to initiate replicaset: " +:+ Error e)).
Proof.
  cbv zeta.
  enough (post (initiateReplicaSet address port info) w (fun v _ l =>
    (ops_where is_dial l = [(OpDial info, Ok)] /\
     ops_where is_session_close l = [(OpSessionClose, Ok)] /\
     last l = Some (OpSessionClose, Ok)) \/
    (exists e, ops_where is_dial l = [(OpDial info, Failed e)] /\
               ops_where is_session_close l = [] /\
               v = ErrorString ("can't dial mongo to initiate replicaset: " +:+ Error e))))
    as H by exact H.
  unfold initiateReplicaSet, net.InterfaceAddrs, mgo.DialWithInfo, mgo.Close,
    replicaset.CurrentConfig, replicaset.Initiate.
  wp; cbn; eauto.
Qed.

Lemma initiateReplicaSet_clean (address : string) (port : Z) (info : DialInfo) (w : World) :
  post (initiateReplicaSet address port info) w (fun v w' l =>
    (v = nil <-> List.filter went_wrong l = []) /\
    (v = nil -> rsconf w = None -> rsconf w' = Some (seed_config address port)) /\
    (v <> nil -> rsconf w' = rsconf w) /\
    (forall c, rsconf w = Some c -> rsconf w' = Some c)).
Proof.
  unfold initiateReplicaSet, net.InterfaceAddrs, mgo.DialWithInfo, mgo.Close,
    replicaset.CurrentConfig, replicaset.Initiate.
  wp; world_simpl; cbn; split_and!; try (split; intros); try intros; try done; try congruence.
Qed.

(** X11. [initiateReplicaSet] returns nil exactly when neither the dial nor
    the initiate failed and the config query did not fail other than by
    reporting not-found.  A failure of the listing of the interfaces does
    not count: the code drops its error and goes on.  On success a cluster
    that had no configuration has the one with this node's [address:port]
    as the only member of the set [juju]; a configuration that exists is
    never changed; a failed call leaves the configuration as it was. *)
Theorem initiate_outcome (address : string) (port : Z) (info : DialInfo) (w : World) :
  let r := initiateReplicaSet address port info w in
  (val r = nil <-> List.filter went_wrong (log r) = []) /\
  (val r = nil -> rsconf w = None -> rsconf (world r) = Some (seed_config address port)) /\
  (val r <> nil -> rsconf (world r) = rsconf w) /\
  (forall c, rsconf w = Some c -> rsconf (world r) = Some c).
Proof. exact (initiateReplicaSet_clean address port info w). Qed.

(** ** Failures are reported *)

Lemma is_nil_true (e : error) : is_nil e = true <-> e = nil.
Proof. destruct e; split; intros; done. Qed.

Lemma is_nil_false (e : error) : is_nil e = false <-> e <> nil.
Proof. destruct e; split; intros; done. Qed.

Lemma single_clean (op : Op) (e : error) :
  is_query op = false -> discarded op = false ->
  e = nil <-> List.filter went_wrong [(op, outcome_of e)] = [].
Proof. intros Hop Hd. destruct e, op; cbn; split; intros; done. Qed.

Lemma went_wrong_snoc (l : list Event) (op : Op) (e : error) :
  is_query op = false -> discarded op = false -> e <> nil ->
  List.filter went_wrong (l ++ [(op, outcome_of e)]) <> [].
Proof.
  intros Hop Hd He. rewrite List.filter_app. intros [_ H]%app_eq_nil.
  apply (single_clean op e Hop Hd) in H. done.
Qed.

Lemma clean_discarded (q : Op -> bool) (l : list Event) :
  only q l -> (forall op, q op = true -> discarded op = true) ->
  List.filter went_wrong l = [].
Proof.
  intros Hl Hq. apply (filter_only q); [exact Hl|].
  intros ev Hev. unfold went_wrong. rewrite (Hq _ Hev). apply andb_false_r.
Qed.

Lemma clean_app (l1 l2 : list Event) :
  List.filter went_wrong (l1 ++ l2) = [] <->
  List.filter went_wrong l1 = [] /\ List.filter went_wrong l2 = [].
Proof. rewrite List.filter_app. split; [apply app_eq_nil|]. intros [-> ->]. done. Qed.

Lemma StopAndRemove_clean (s : Service) (w : World) :
  post (upstart.StopAndRemove s) w (fun v _ l => v = nil <-> List.filter went_wrong l = []).
Proof.
  unfold upstart.StopAndRemove, upstart.Stop.
  wp; cbn; split; intros; done.
Qed.

Lemma removeOldVersions_clean (n : nat) : forall (x : Z) (w : World),
  post (removeOldVersions n x) w (fun v _ l => v = nil <-> List.filter went_wrong l = []).
Proof.
  induction n as [|n IH]; intros x w.
  - apply post_ret. done.
  - cbn [removeOldVersions]. apply post_bind.
    eapply post_mono; [apply StopAndRemove_clean|]. intros err w1 l1 H1.
    destruct (is_nil err) eqn:Herr; cbn [negb].
    + apply is_nil_true in Herr. eapply post_mono; [apply IH|]. intros err2 w2 l2 H2.
      rewrite clean_app, <- H1, <- H2. tauto.
    + apply is_nil_false in Herr. apply post_ret. rewrite app_nil_r. done.
Qed.

Lemma removeOldMongoServices_clean (curVersion : Z) (w : World) :
  post (removeOldMongoServices curVersion) w (fun v _ l =>
    v = nil <-> List.filter went_wrong l = []).
Proof.
  unfold removeOldMongoServices. apply post_bind.
  eapply post_mono; [apply StopAndRemove_clean|]. intros err w1 l1 H1.
  destruct (is_nil err) eqn:Herr; cbn [negb].
  - apply is_nil_true in Herr. eapply post_mono; [apply removeOldVersions_clean|].
    intros err2 w2 l2 H2. rewrite clean_app, <- H1, <- H2. tauto.
  - apply is_nil_false in Herr. apply post_ret. rewrite app_nil_r. done.
Qed.

Lemma mkdir_chain_clean (perm : Z) (chain : list string) : forall (w : World),
  post (os.mkdir_chain chain perm) w (fun err _ l =>
    err = nil -> List.filter went_wrong l = []).
Proof.
  induction chain as [|p up IH]; intros w.
  - apply post_ret. done.
  - cbn [os.mkdir_chain]. apply post_bind, post_get. cbn [app].
    destruct (fs w !! p) as [[m|m d]|]; try (apply post_ret; done).
    apply post_bind. eapply post_mono; [apply IH|]. intros err w1 l1 H1. cbv beta in H1.
    destruct (is_nil err) eqn:Herr.
    + apply is_nil_true in Herr. eapply post_mono; [apply Mkdir_spec|].
      intros err2 w2 l2 (-> & _). intros ->. apply clean_app. split; [auto|done].
    + apply is_nil_false in Herr. apply post_ret. done.
Qed.

Lemma MkdirAll_clean (path : string) (perm : Z) (w : World) :
  post (os.MkdirAll path perm) w (fun err _ l =>
    err = nil <-> List.filter went_wrong l = []).
Proof.
  unfold os.MkdirAll. apply post_bind.
  eapply post_mono; [apply mkdir_chain_clean|]. intros err w1 l1 H1.
  apply post_report. split.
  - intros ->. rewrite clean_app. split; [auto|done].
  - intros H. destruct (decide (err = nil)) as [|Hne]; [done|].
    by apply (went_wrong_snoc l1 (OpMkdirAll path perm) err) in H.
Qed.

(** ** Deferred closes *)

Lemma post_and {A} (m : M A) (w : World) (Q1 Q2 : A -> World -> list Event -> Prop) :
  post m w Q1 -> post m w Q2 -> post m w (fun a w' l => Q1 a w' l /\ Q2 a w' l).
Proof. intros H1 H2. split; assumption. Qed.

Lemma close_of_only (q : Op -> bool) (l : list Event) :
  only q l -> (forall op, q op = true -> is_open op = false) -> flat_map close_of l = [].
Proof.
  unfold only. induction l as [|[op o] l IH]; [done|].
  cbn [forallb fst]. intros [Hq Hl]%andb_true_iff Hopen. cbn [flat_map].
  rewrite (IH Hl Hopen), app_nil_r. specialize (Hopen op Hq). by destruct op.
Qed.

Lemma ops_where_all (q : Op -> bool) (l : list Event) : only q l -> ops_where q l = l.
Proof.
  unfold only, ops_where. induction l as [|ev l IH]; [done|].
  cbn [forallb List.filter]. intros [-> Hl]%andb_true_iff. by rewrite IH.
Qed.

Lemma elem_of_map_fd (g : OsFile) (l : list OsFile) : g ∈ l -> fd g ∈ map fd l.
Proof. intros H. by apply list_elem_of_In, in_map, list_elem_of_In. Qed.

Lemma elem_of_map_fd_inv (k : nat) (l : list OsFile) :
  k ∈ map fd l -> exists g, g ∈ l /\ fd g = k.
Proof.
  intros H. apply list_elem_of_In, in_map_iff in H as (g & Hg & Hin).
  exists g. split; [by apply list_elem_of_In|done].
Qed.

Lemma lookup_close_all (deferred : list OsFile) :
  forall (t : gmap nat (string * nat)) (k : nat),
    close_all deferred t !! k = if decide (k ∈ map fd deferred) then None else t !! k.
Proof.
  induction deferred as [|f rest IH]; intros t k.
  - cbn. by rewrite decide_False by apply not_elem_of_nil.
  - cbn [close_all fold_left map]. fold (close_all rest (delete (fd f) t)).
    rewrite IH. destruct (decide (k ∈ map fd rest)) as [Hin|Hout].
    + rewrite decide_True; [done|]. apply elem_of_cons. by right.
    + destruct (decide (k = fd f)) as [->|Hne].
      * rewrite lookup_delete_eq, decide_True; [done|]. apply elem_of_cons. by left.
      * rewrite lookup_delete_ne by done. rewrite decide_False; [done|].
        by intros [?|?]%elem_of_cons.
Qed.

Lemma Close_open (f : OsFile) (w : World) :
  is_Some (fdtable w !! fd f) ->
  post (os.Close f) w (fun _ w' l =>
    map fst l = [closing f] /\ fdtable w' = delete (fd f) (fdtable w)).
Proof.
  intros [x Hx]. unfold os.Close. cbv zeta. apply post_bind, post_fault.
  apply post_bind, post_get. rewrite Hx.
  wp; world_simpl; done.
Qed.

Lemma closeDeferred_open (deferred : list OsFile) : forall (w : World),
  NoDup (map fd deferred) ->
  (forall f, f ∈ deferred -> is_Some (fdtable w !! fd f)) ->
  post (closeDeferred deferred) w (fun _ w' l =>
    map fst l = map closing deferred /\ fdtable w' = close_all deferred (fdtable w)).
Proof.
  induction deferred as [|f rest IH]; intros w Hdup Hopen.
  - apply post_ret. done.
  - cbn [closeDeferred]. apply NoDup_cons in Hdup as [Hf Hdup].
    apply post_bind. eapply post_mono; [apply Close_open, Hopen, elem_of_cons; by left|].
    intros _ w1 l1 [Hl1 Hfd1].
    eapply post_mono; [apply IH; [exact Hdup|]|].
    + intros g Hg. rewrite Hfd1, lookup_delete_ne; [apply Hopen, elem_of_cons; by right|].
      intros Heq. apply Hf. rewrite Heq. by apply elem_of_map_fd.
    + intros _ w2 l2 [Hl2 Hfd2]. rewrite map_app, Hl1, Hl2, Hfd2, Hfd1. done.
Qed.

Lemma writeZeroes_fds (f : OsFile) (zeroes : list Byte.byte) (filename : string)
    (fuel : nat) : forall (total : Z) (w : World),
  post (writeZeroes fuel f zeroes filename total) w (fun r w' l =>
    only is_write l /\
    (forall k, is_Some (fdtable w' !! k) <-> is_Some (fdtable w !! k)) /\
    (forall k, k <> fd f -> fdtable w' !! k = fdtable w !! k) /\
    match r with Some e => e = nil <-> List.filter went_wrong l = [] | None => True end).
Proof.
  induction fuel as [|fuel IH]; intros total w; cbn [writeZeroes];
    destruct (total <? 1024 * 1024); try (apply post_ret; done).
  apply post_bind. eapply post_mono; [apply Write_spec|].
  intros [n err] w1 l1. cbn [fst snd]. intros (-> & _ & Hfail & Hok).
  destruct (is_nil err) eqn:Herr; cbn [negb].
  - apply is_nil_true in Herr. subst err.
    destruct (Hok eq_refl) as (_ & path & off & p & d & Hfd & _ & _ & Hfd1).
    eapply post_mono; [apply IH|].
    intros r w2 l2 (Ho2 & Hsome2 & Hframe2 & Hclean2).
    split; [by apply only_cons|].
    split.
    { intros k. rewrite Hsome2, Hfd1. destruct (decide (k = fd f)) as [->|Hne].
      - rewrite lookup_insert_eq, Hfd. split; eauto.
      - by rewrite lookup_insert_ne. }
    split.
    { intros k Hk. rewrite Hframe2, Hfd1 by done. by rewrite lookup_insert_ne. }
    destruct r as [e|]; [|done]. rewrite clean_app, <- Hclean2. cbn. tauto.
  - apply is_nil_false in Herr. destruct (Hfail Herr) as [_ Hfd1].
    apply post_ret. rewrite app_nil_r, Hfd1. split_and!; try done.
    split; [done|]. intros H. by apply (single_clean _ err) in H.
Qed.

Lemma deferred_closes_app (l1 l2 : list Event) :
  deferred_closes (l1 ++ l2) = deferred_closes l2 ++ deferred_closes l1.
Proof. unfold deferred_closes. by rewrite flat_map_app, rev_app_distr. Qed.

Lemma deferred_closes_only (q : Op -> bool) (l : list Event) :
  only q l -> (forall op, q op = true -> is_open op = false) -> deferred_closes l = [].
Proof. intros Hl Hq. unfold deferred_closes. by rewrite (close_of_only q l Hl Hq). Qed.

Lemma preallocFiles_fds (J : string) (zeroes : list Byte.byte) (n : nat) :
  forall (x : Z) (deferred : list OsFile) (w : World),
  NoDup (map fd deferred) ->
  (forall f, f ∈ deferred -> is_Some (fdtable w !! fd f)) ->
  post (preallocFiles n x J zeroes deferred) w (fun r w' l =>
    (exists new, snd r = new ++ deferred /\
       (forall f, f ∈ new -> fdtable w !! fd f = None) /\
       (forall k, k ∉ map fd new -> fdtable w' !! k = fdtable w !! k) /\
       map closing new = deferred_closes l) /\
    NoDup (map fd (snd r)) /\
    (forall f, f ∈ snd r -> is_Some (fdtable w' !! fd f)) /\
    ops_where is_close l = [] /\
    match fst r with Some e => e = nil <-> List.filter went_wrong l = [] | None => True end).
Proof.
  induction n as [|n IH]; intros x deferred w Hdup Hopen.
  - apply post_ret. cbn [fst snd]. split_and!; try done.
    exists []. split_and!; try done. intros f Hf. by apply elem_of_nil in Hf.
  - cbn [preallocFiles]. apply post_bind.
    eapply post_mono; [apply OpenFile_spec; reflexivity|].
    intros [f err] w1 l1. cbn [fst snd]. intros (-> & _ & Hfail & Hok).
    destruct (is_nil err) eqn:Herr; cbn [negb].
    2:{ apply is_nil_false in Herr. destruct (Hfail Herr) as [_ Hfd1].
        apply post_ret. rewrite app_nil_r. cbn [fst snd]. split_and!; try done.
        - exists []. split_and!; try done.
          + intros g Hg. by apply elem_of_nil in Hg.
          + intros k _. by rewrite Hfd1.
          + by destruct err.
        - intros g Hg. rewrite Hfd1. by apply Hopen.
        - split; [done|]. intros H. by apply (single_clean _ err) in H. }
    apply is_nil_true in Herr. subst err.
    destruct (Hok eq_refl) as (Hname & Hfresh & Hfd1 & _).
    set (name := filepath_Join [J; "prealloc." +:+ itoa x]) in *.
    assert (Hdup1 : NoDup (map fd (f :: deferred))).
    { cbn [map]. apply NoDup_cons. split; [|done].
      intros (g & Hg & Heq)%elem_of_map_fd_inv. apply Hopen in Hg as [y Hy].
      rewrite Heq in Hy. congruence. }
    assert (Hopen1 : forall g, g ∈ f :: deferred -> is_Some (fdtable w1 !! fd g)).
    { intros g Hg. rewrite Hfd1. apply lookup_insert_is_Some'.
      apply elem_of_cons in Hg as [->|Hg]; [by left|right; by apply Hopen]. }
    apply post_bind. eapply post_mono; [apply writeZeroes_fds|].
    intros r w2 l2 (Ho2 & Hsome2 & Hframe2 & Hclean2).
    assert (Hopen2 : forall g, g ∈ f :: deferred -> is_Some (fdtable w2 !! fd g)).
    { intros g Hg. by apply Hsome2, Hopen1. }
    assert (Hw2 : forall k, k <> fd f -> fdtable w2 !! k = fdtable w !! k).
    { intros k Hk. rewrite Hframe2, Hfd1 by done. by rewrite lookup_insert_ne. }
    assert (Hl2 : deferred_closes l2 = []).
    { apply (deferred_closes_only is_write); [done|by intros []]. }
    assert (Hc2 : ops_where is_close l2 = []).
    { apply (ops_where_only is_write); [done|by intros []]. }
    assert (Hstop : forall other, other <> Some nil ->
              match other with Some e => e = nil <-> List.filter went_wrong l2 = [] | None => True end ->
              post (mret (other, f :: deferred)) w2 (fun r w' l3 =>
                (exists new, snd r = new ++ deferred /\
                   (forall f, f ∈ new -> fdtable w !! fd f = None) /\
                   (forall k, k ∉ map fd new -> fdtable w' !! k = fdtable w !! k) /\
                   map closing new =
                     deferred_closes ([(OpOpenFile name
                        (Z.lor (Z.lor os.O_WRONLY os.O_CREATE) os.O_TRUNC) 448,
                        outcome_of nil)] ++ l2 ++ l3)) /\
                NoDup (map fd (snd r)) /\
                (forall f, f ∈ snd r -> is_Some (fdtable w' !! fd f)) /\
                ops_where is_close ([(OpOpenFile name
                        (Z.lor (Z.lor os.O_WRONLY os.O_CREATE) os.O_TRUNC) 448,
                        outcome_of nil)] ++ l2 ++ l3) = [] /\
                match fst r with
                | Some e => e = nil <-> List.filter went_wrong
                    ([(OpOpenFile name
                        (Z.lor (Z.lor os.O_WRONLY os.O_CREATE) os.O_TRUNC) 448,
                        outcome_of nil)] ++ l2 ++ l3) = []
                | None => True end)).
    { intros other Hother Hclean. apply post_ret. rewrite app_nil_r. cbn [fst snd].
      split_and!; try done.
      all: try (rewrite ops_where_app, Hc2; done).
      all: try (destruct other as [e|]; [|done]; rewrite clean_app, <- Hclean; cbn; tauto).
      exists [f]. split_and!; try done.
      + intros g ->%list_elem_of_singleton. done.
      + intros k Hk. apply Hw2. intros ->. apply Hk. cbn. apply elem_of_cons. by left.
      + rewrite deferred_closes_app, Hl2. unfold deferred_closes.
        cbn [flat_map close_of outcome_of app rev map]. unfold closing. by rewrite Hname. }
    destruct r as [[| |msg]|]; [|by apply Hstop..].
    eapply post_mono; [apply (IH (x + 1) (f :: deferred) w2 Hdup1 Hopen2)|].
    intros [r3 deferred3] w3 l3. cbn [fst snd].
    intros ((new & -> & Hnew & Hframe3 & Hcl3) & Hdup3 & Hopen3 & Hc3 & Hclean3).
    split_and!.
    + exists (new ++ [f]). split_and!.
      * by rewrite <- app_assoc.
      * intros g [Hg| ->%list_elem_of_singleton]%elem_of_app; [|done].
        assert (Hne : fd g <> fd f).
        { intros Heq. specialize (Hnew g Hg). rewrite Heq in Hnew.
          destruct (Hopen2 f) as [y Hy]; [apply elem_of_cons; by left|]. congruence. }
        rewrite <- Hw2 by done. by apply Hnew.
      * intros k Hk. rewrite map_app in Hk. apply not_elem_of_app in Hk as [Hk1 Hk2].
        rewrite Hframe3 by done. apply Hw2. intros ->. apply Hk2. cbn.
        apply elem_of_cons. by left.
      * rewrite map_app, !deferred_closes_app, Hl2, <- Hcl3, app_nil_r.
        unfold deferred_closes. cbn [flat_map close_of outcome_of app rev map].
        unfold closing at 2. by rewrite Hname.
    + exact Hdup3.
    + exact Hopen3.
    + rewrite !ops_where_app, Hc2, Hc3. done.
    + destruct r3 as [e|]; [|done]. rewrite !clean_app, <- Hclean3.
      destruct Hclean2 as [Hclean2 _]. rewrite (Hclean2 eq_refl). cbn. tauto.
Qed.

Lemma makeJournalDirs_fds (dir : string) (w : World) :
  post (makeJournalDirs dir) w (fun r w' l =>
    fdtable w' = fdtable w /\
    (exists l0 lc, l = l0 ++ lc /\ map fst lc = deferred_closes l /\
                   ops_where is_close l0 = []) /\
    match r with Some e => e = nil <-> List.filter went_wrong l = [] | None => True end).
Proof.
  unfold makeJournalDirs. set (J := Join [dir; "journal"]). cbv zeta.
  apply post_bind.
  eapply post_mono; [apply post_and; [apply MkdirAll_spec|apply MkdirAll_clean]|].
  intros err w1 l1 [(Ho1 & _ & Hfd1 & _) Hclean1]. cbv beta in Hclean1.
  assert (Hl1 : deferred_closes l1 = []).
  { apply (deferred_closes_only is_mkdir); [done|by intros []]. }
  assert (Hc1 : ops_where is_close l1 = []).
  { apply (ops_where_only is_mkdir); [done|by intros []]. }
  destruct (is_nil err) eqn:Herr; cbn [negb].
  2:{ apply post_ret. rewrite app_nil_r, Hl1. split_and!; try done.
      exists l1, []. by rewrite app_nil_r. }
  apply is_nil_true in Herr. subst err.
  apply post_bind.
  eapply post_mono; [apply (preallocFiles_fds J _ 3 0 [] w1); [constructor|]|].
  { intros f Hf. by apply elem_of_nil in Hf. }
  intros [r deferred] w2 l2. cbn [fst snd].
  intros ((new & -> & Hnew & Hframe2 & Hcl2) & Hdup2 & Hopen2 & Hc2 & Hclean2).
  rewrite app_nil_r in *.
  apply post_bind.
  eapply post_mono;
    [apply post_and; [by apply closeDeferred_open|apply closeDeferred_spec]|].
  intros _ w3 l3 [[Hl3 Hfd3] (Ho3 & _)]. apply post_ret. rewrite app_nil_r.
  assert (Hd3 : deferred_closes l3 = []).
  { apply (deferred_closes_only is_close); [done|by intros []]. }
  split_and!.
  - rewrite Hfd3, <- Hfd1. apply map_eq. intros k. rewrite lookup_close_all.
    destruct (decide (k ∈ map fd new)) as [Hin|Hout]; [|by apply Hframe2].
    apply elem_of_map_fd_inv in Hin as (g & Hg & <-). symmetry. by apply Hnew.
  - exists (l1 ++ l2), l3. rewrite !deferred_closes_app, Hl1, Hd3, app_nil_r, <- Hcl2.
    cbn [app]. rewrite <- app_assoc. split; [done|]. split; [done|].
    by rewrite ops_where_app, Hc1, Hc2.
  - destruct r as [e|]; [|done].
    rewrite !clean_app, (clean_discarded is_close l3 Ho3) by (by intros []).
    rewrite <- Hclean2.
    destruct Hclean1 as [Hclean1 _]. rewrite (Hclean1 eq_refl). tauto.
Qed.

(** X12. [makeJournalDirs] closes every file it opened, on success and on
    failure alike: the log ends with one close for each successful open, the
    last opened first, whatever comes of the closes; no file is closed
    before; and the table of open files is afterwards what it was before the
    call. *)
Theorem journal_files_closed (dir : string) (w : World) :
  let r := makeJournalDirs dir w in
  fdtable (world r) = fdtable w /\
  exists l0 lc, log r = l0 ++ lc /\ map fst lc = deferred_closes (log r) /\
                ops_where is_close l0 = [].
Proof.
  cbv zeta. pose proof (makeJournalDirs_fds dir w) as (Hfd & Hlog & _). done.
Qed.

(** ** Success and failure of a convergence pass *)

Lemma makeJournalDirs_clean (dir : string) (w : World) :
  post (makeJournalDirs dir) w (fun r w' l =>
    r <> None /\ fdtable w' = fdtable w /\
    forall e, r = Some e -> e = nil <-> List.filter went_wrong l = []).
Proof.
  eapply post_mono; [apply post_and; [apply makeJournalDirs_frame|apply makeJournalDirs_fds]|].
  intros r w' l [(_ & _ & Hr) (Hfd & _ & Hclean)]. cbv beta in Hclean.
  split_and!; try done. by intros e ->.
Qed.

Ltac clean_step :=
  lazymatch goal with
  | |- post (removeOldMongoServices _) _ _ =>
      eapply post_mono; [apply removeOldMongoServices_clean|];
      intros ? ? ? ?Hrm; cbv beta in *
  | |- post (makeJournalDirs _) _ _ =>
      eapply post_mono; [apply makeJournalDirs_clean|];
      intros ? ? ? (?Hjret & _ & ?Hjclean)
  | |- post (initiateReplicaSet _ _ _) _ _ =>
      eapply post_mono; [apply initiateReplicaSet_clean|];
      intros ? ? ? (?Hinit & _)
  | |- _ => wp_step
  end.

Ltac clean_walk :=
  unfold ensureMongoServer, ensureMongoServerAt; cbv zeta;
  rewrite mongoUpstartService_eq; cbv beta iota zeta;
  unfold upstart.Installed, upstart.Install, upstart.Running, upstart.Start;
  cbv zeta; rewrite ?mongoUpstartService_name;
  repeat (clean_step; cbn beta iota zeta delta [negb is_nil fst snd]).

Lemma ensure_clean (version : Z) (address dataDir : string) (port : Z)
    (info : DialInfo) (w : World) :
  post (ensureMongoServerAt version address dataDir port info) w (fun v _ l =>
    v = Some nil <-> List.filter went_wrong l = []).
Proof.
  clean_walk.
  all: rewrite ?clean_app.
  all: cbn [List.filter went_wrong failed not_found_answer discarded fst snd andb negb
            outcome_of].
  all: repeat match goal with
       | H : forall e, Some ?x = Some e -> _ |- _ => specialize (H x eq_refl)
       end.
  all: repeat match goal with a : error |- _ => destruct a end; cbn [negb is_nil] in *.
  all: try discriminate.
  all: intuition (try congruence).
Qed.

(** X14. [ensureMongoServer] returns nil exactly when none of its
    operations failed, three kinds of failure apart: the not-found answer of
    the config query, which it acts on, and the failures it drops, those of
    the deferred closes of the preallocation files and of the listing of
    the interfaces.  Every other failure of the supervisor, the file system
    or the cluster is returned, and no error is returned without one. *)
Theorem success_iff_nothing_failed (address dataDir : string) (port : Z) (info : DialInfo)
    (w : World) :
  let r := ensureMongoServer address dataDir port info w in
  val r = Some nil <-> List.filter went_wrong (log r) = [].
Proof. exact (ensure_clean mongoScriptVersion address dataDir port info w). Qed.

(** X13. [makeJournalDirs] returns nil exactly when no creation of a
    directory, no open and no write failed: such an error is always
    returned, and no error is made up.  The failure of a deferred close is
    dropped: it does not change what the call returns. *)
Theorem journal_success_iff_nothing_failed (dir : string) (w : World) :
  let r := makeJournalDirs dir w in
  val r = Some nil <-> List.filter went_wrong (log r) = [].
Proof.
  cbv zeta. pose proof (makeJournalDirs_clean dir w) as (Hr & _ & Hclean).
  revert Hr Hclean. generalize (makeJournalDirs dir w). intros [[e|] w' l] Hr Hclean;
    cbn [val log] in *; [|done].
  rewrite <- (Hclean e eq_refl). split; [by intros [= ->]|by intros ->].
Qed.

(** ** The order of the operations *)

Lemma staged_nil (lo hi : nat) : staged lo hi [].
Proof. split; constructor. Qed.

Lemma staged_single (lo hi : nat) (op : Op) (o : Outcome) :
  (lo <= phase op <= hi)%nat -> staged lo hi [(op, o)].
Proof.
  intros H. split; [split; [constructor|exact I]|].
  constructor; [exact H|constructor].
Qed.

Ltac staged_list :=
  split; cbn [app in_order]; repeat split;
  repeat first [exact I | constructor; [cbn; lia|] | constructor].

Lemma staged_weaken (lo hi lo' hi' : nat) (l : list Event) :
  staged lo hi l -> (lo' <= lo)%nat -> (hi <= hi')%nat -> staged lo' hi' l.
Proof.
  intros [Hs Hb] Hlo Hhi. split; [done|].
  eapply Forall_impl; [exact Hb|]. intros ev Hev. cbv beta in *. lia.
Qed.

Lemma staged_app (mid lo hi : nat) (l1 l2 : list Event) :
  (lo <= mid <= hi)%nat ->
  staged lo mid l1 -> staged mid hi l2 -> staged lo hi (l1 ++ l2).
Proof.
  intros Hmid [Hs1 Hb1] [Hs2 Hb2]. split.
  - induction l1 as [|a l1 IH]; [done|].
    cbn [app in_order] in *. destruct Hs1 as [Ha Hs1].
    apply Forall_cons in Hb1 as [Hab Hb1].
    split; [|by apply IH]. apply Forall_app. split; [done|].
    eapply Forall_impl; [exact Hb2|]. intros b Hb. cbv beta in *. lia.
  - apply Forall_app. split.
    + eapply Forall_impl; [exact Hb1|]. intros ev Hev. cbv beta in *. lia.
    + eapply Forall_impl; [exact Hb2|]. intros ev Hev. cbv beta in *. lia.
Qed.

Lemma staged_only (q : Op -> bool) (n : nat) (l : list Event) :
  only q l -> (forall op, q op = true -> phase op = n) -> staged n n l.
Proof.
  unfold only. intros Hl Hq.
  assert (Hall : Forall (fun ev => phase (fst ev) = n) l).
  { apply Forall_forall. intros ev Hev. apply Hq.
    rewrite forallb_forall in Hl. by apply Hl, list_elem_of_In. }
  clear Hl. split.
  - induction Hall as [|a l Ha Hall IH]; [done|]. split; [|done].
    eapply Forall_impl; [exact Hall|]. intros b Hb. cbv beta in *. lia.
  - eapply Forall_impl; [exact Hall|]. intros ev Hev. cbv beta in *. lia.
Qed.

Lemma preallocFiles_only (J : string) (zeroes : list Byte.byte) (n : nat) :
  forall (x : Z) (deferred : list OsFile) (w : World),
  post (preallocFiles n x J zeroes deferred) w (fun _ _ l => only is_prealloc l).
Proof.
  induction n as [|n IH]; intros x deferred w.
  - apply post_ret. done.
  - cbn [preallocFiles]. apply post_bind.
    eapply post_mono; [apply OpenFile_spec; reflexivity|].
    intros [f err] w1 l1. cbn [fst snd]. intros (-> & _).
    destruct (negb (is_nil err)); [by apply post_ret|].
    apply post_bind. eapply post_mono; [apply writeZeroes_fds|].
    intros r w2 l2 (Ho2 & _).
    assert (Hl2 : only is_prealloc l2).
    { eapply only_weaken; [|exact Ho2]. by intros []. }
    destruct r as [[| |msg]|]; try (apply post_ret; rewrite app_nil_r; by apply only_cons).
    eapply post_mono; [apply IH|]. intros r3 w3 l3 Ho3.
    apply only_cons; [done|]. by apply only_app.
Qed.

Lemma makeJournalDirs_staged (dir : string) (w : World) :
  post (makeJournalDirs dir) w (fun _ _ l => staged 2 4 l).
Proof.
  unfold makeJournalDirs. cbv zeta. apply post_bind.
  eapply post_mono; [apply MkdirAll_spec|].
  intros err w1 l1 (Ho1 & _).
  assert (H1 : staged 2 2 l1) by (apply (staged_only is_mkdir); [done|by intros []]).
  destruct (negb (is_nil err)).
  { apply post_ret. rewrite app_nil_r. eapply staged_weaken; [exact H1|lia..]. }
  apply post_bind. eapply post_mono; [apply preallocFiles_only|].
  intros [r deferred] w2 l2 Ho2.
  assert (H2 : staged 3 3 l2).
  { apply (staged_only is_prealloc); [done|]. by intros []. }
  apply post_bind. eapply post_mono; [apply closeDeferred_spec|].
  intros _ w3 l3 (Ho3 & _).
  assert (H3 : staged 4 4 l3) by (apply (staged_only is_close); [done|by intros []]).
  apply post_ret. rewrite app_nil_r.
  apply (staged_app 2); [lia|done|]. apply (staged_app 3); [lia| |].
  - eapply staged_weaken; [exact H2|lia..].
  - eapply staged_weaken; [exact H3|lia..].
Qed.

Lemma initiateReplicaSet_staged (address : string) (port : Z) (info : DialInfo) (w : World) :
  post (initiateReplicaSet address port info) w (fun _ _ l => staged 8 12 l).
Proof.
  unfold initiateReplicaSet, net.InterfaceAddrs, mgo.DialWithInfo, mgo.Close,
    replicaset.CurrentConfig, replicaset.Initiate.
  wp; staged_list.
Qed.

Lemma removeOldMongoServices_staged (curVersion : Z) (w : World) :
  post (removeOldMongoServices curVersion) w (fun _ _ l => staged 0 0 l).
Proof.
  eapply post_mono; [apply removeOldMongoServices_spec|].
  intros err w' l (Ho & _). apply (staged_only is_removal_op); [done|].
  by intros [].
Qed.

Ltac upper l :=
  lazymatch l with
  | ?l1 ++ ?l2 =>
      let a := upper l1 in let b := upper l2 in eval cbv in (Nat.max a b)
  | [] => constr:(0%nat)
  | [(?op, _)] => eval lazy in (phase op)
  | _ => lazymatch goal with H : staged _ ?hi l |- _ => constr:(hi) end
  end.

Ltac stage :=
  lazymatch goal with
  | |- staged ?lo ?hi (?l1 ++ ?l2) =>
      let m := upper l1 in
      let m := eval cbv in (Nat.max lo m) in
      apply (staged_app m lo hi); [lia | stage | stage]
  | |- staged _ _ [] => apply staged_nil
  | |- staged _ _ [(_, _)] => apply staged_single; cbn; lia
  | |- staged _ _ ?l => eapply staged_weaken; [eassumption | lia | lia]
  end.

Ltac order_step :=
  lazymatch goal with
  | |- post (removeOldMongoServices _) _ _ =>
      eapply post_mono; [apply removeOldMongoServices_staged|]; intros ? ? ? ?Hrm
  | |- post (makeJournalDirs _) _ _ =>
      eapply post_mono; [apply makeJournalDirs_staged|]; intros ? ? ? ?Hj
  | |- post (initiateReplicaSet _ _ _) _ _ =>
      eapply post_mono; [apply initiateReplicaSet_staged|]; intros ? ? ? ?Hrs
  | |- _ => wp_step
  end.

Lemma ensure_staged (version : Z) (address dataDir : string) (port : Z)
    (info : DialInfo) (w : World) :
  post (ensureMongoServerAt version address dataDir port info) w (fun _ _ l =>
    staged 0 12 l).
Proof.
  unfold ensureMongoServer, ensureMongoServerAt; cbv zeta;
  rewrite mongoUpstartService_eq; cbv beta iota zeta;
  unfold upstart.Installed, upstart.Install, upstart.Running, upstart.Start;
  cbv zeta; rewrite ?mongoUpstartService_name;
  repeat (order_step; cbn beta iota zeta delta [negb is_nil fst snd]).
  all: cbv beta in *.
  all: stage.
Qed.

(** X15. The operations of [ensureMongoServer] come in the order of its
    steps, in every run: the legacy removals, the installed? test, the
    journal directory, the preallocation files and their closes, the
    install, the running? test, the start, and then the replica set: dial,
    config query, initiate, close of the session. *)
Theorem operations_in_order (address dataDir : string) (port : Z) (info : DialInfo)
    (w : World) :
  in_order (log (ensureMongoServer address dataDir port info w)).
Proof. exact (proj1 (ensure_staged mongoScriptVersion address dataDir port info w)). Qed.

(** ** What a convergence pass leaves alone *)

Ltac foot_step :=
  lazymatch goal with
  | |- post (removeOldMongoServices _) _ _ =>
      eapply post_mono; [apply removeOldMongoServices_spec|];
      intros ? ? ? (_ & _ & _ & ?Hrmfd & _ & ?Hframe & _)
  | |- post (makeJournalDirs _) _ _ =>
      eapply post_mono;
        [apply post_and; [apply makeJournalDirs_frame|apply makeJournalDirs_fds]|];
      intros ? ? ? [(_ & (?Hjs & ?Hjr & _) & _) (?Hjfd & _)]
  | |- post (initiateReplicaSet _ _ _) _ _ =>
      eapply post_mono; [apply initiateReplicaSet_spec|];
      intros ? ? ? (_ & (?Hns & ?Hnr & _ & ?Hnfd) & _)
  | |- _ => wp_step
  end.

Lemma ensure_footprint (version : Z) (address dataDir : string) (port : Z)
    (info : DialInfo) (w : World) :
  post (ensureMongoServerAt version address dataDir port info) w (fun _ w' _ =>
    fdtable w' = fdtable w /\
    (forall nm, nm <> makeServiceName version -> ~ is_legacy_name version nm ->
       services w' !! nm = services w !! nm /\ (nm ∈ running w' <-> nm ∈ running w)) /\
    (forall c, services w !! makeServiceName version = Some c ->
       services w' !! makeServiceName version = Some c) /\
    (makeServiceName version ∈ running w -> makeServiceName version ∈ running w')).
Proof.
  unfold ensureMongoServer, ensureMongoServerAt; cbv zeta;
  rewrite mongoUpstartService_eq; cbv beta iota zeta;
  unfold upstart.Installed, upstart.Install, upstart.Running, upstart.Start;
  cbv zeta; rewrite ?mongoUpstartService_name;
  repeat (foot_step; cbn beta iota zeta delta [negb is_nil fst snd]);
  world_simpl.
  all: use_frame version; tests.
  all: repeat match goal with
       | H : fdtable _ = _ |- _ => rewrite H; clear H
       | H : services _ = _ |- _ => rewrite H; clear H
       | H : running _ = _ |- _ => rewrite H; clear H
       end; world_simpl.
  all: split; [congruence|].
  all: split; [intros nm Hcur Hleg; rewrite ?lookup_insert_ne by done;
               destruct (Hframe nm Hleg) as [-> Hrn]; split; [done|];
               rewrite <- Hrn, ?elem_of_union, ?elem_of_singleton; tauto|].
  all: split; [intros conf Hc; rewrite <- Hsvc in Hc;
               first [exact Hc | exfalso; rewrite Hc in *; eauto]|].
  all: intros Hr; apply Hrunning in Hr; rewrite ?elem_of_union; auto.
Qed.

(** X16. What [ensureMongoServer] leaves alone, in every run: the table of
    open files is as before; a definition that is neither the current one
    nor a legacy one is untouched, and so is its job; a definition already
    installed under the current name is kept as it is, never replaced by the
    one the builder would make; a running job of the current name keeps
    running. *)
Theorem convergence_footprint (address dataDir : string) (port : Z) (info : DialInfo)
    (w : World) :
  let w' := world (ensureMongoServer address dataDir port info w) in
  let current := makeServiceName mongoScriptVersion in
  fdtable w' = fdtable w /\
  (forall nm, nm <> current -> ~ is_legacy_name mongoScriptVersion nm ->
     services w' !! nm = services w !! nm /\ (nm ∈ running w' <-> nm ∈ running w)) /\
  (forall c, services w !! current = Some c -> services w' !! current = Some c) /\
  (current ∈ running w -> current ∈ running w').
Proof. exact (ensure_footprint mongoScriptVersion address dataDir port info w). Qed.

Lemma ensure_dial_running (version : Z) (address dataDir : string) (port : Z)
    (info : DialInfo) (w : World) :
  post (ensureMongoServerAt version address dataDir port info) w (fun _ w' l =>
    ops_where is_dial l <> [] ->
    is_Some (services w' !! makeServiceName version) /\
    makeServiceName version ∈ running w').
Proof.
  ensure_walk.
  all: intros Hd.
  all: try (exfalso; apply Hd; logs; rewrite ?app_nil_r; reflexivity).
  all: clear Hd; tests; unfold same_node, same_services in *.
  all: destruct Hnode as (Hs & Hr & _); world_simpl; rewrite Hs, Hr.
  all: split.
  all: try (by rewrite lookup_insert_eq).
  all: try (by apply elem_of_union_l, elem_of_singleton).
  all: try done.
Qed.

(** X17. [ensureMongoServer] dials the database only once the service is
    in place: in every run with a dial, the current definition is installed
    and its job running when the call returns. *)
Theorem dial_only_when_running (address dataDir : string) (port : Z) (info : DialInfo)
    (w : World) :
  ops_where is_dial (log (ensureMongoServer address dataDir port info w)) <> [] ->
  is_Some (services (world (ensureMongoServer address dataDir port info w))
             !! makeServiceName mongoScriptVersion) /\
  makeServiceName mongoScriptVersion
    ∈ running (world (ensureMongoServer address dataDir port info w)).
Proof. exact (ensure_dial_running mongoScriptVersion address dataDir port info w). Qed.

(** ** Files outside the journal *)

Lemma makeJournalDirs_keeps (dir : string) (w : World) :
  post (makeJournalDirs dir) w (fun _ w' _ =>
    forall k x, fs w !! k = Some x ->
      (forall v, 0 <= v < 3 -> k <> prealloc_path (Join [dir; "journal"]) v) ->
      fs w' !! k = Some x).
Proof.
  unfold makeJournalDirs. set (J := Join [dir; "journal"]). cbv zeta.
  apply post_bind. eapply post_mono; [apply MkdirAll_spec|].
  intros err w1 l1 (_ & _ & _ & _ & Hnew1 & _).
  assert (H1 : forall k x, fs w !! k = Some x -> fs w1 !! k = Some x).
  { intros k x Hk. destruct (Hnew1 k) as [->|[Hnone _]]; congruence. }
  destruct (negb (is_nil err)); [apply post_ret; auto|].
  set (c := Z.to_nat (64 * 1024)).
  assert (Hc : Z.of_nat c = 65536) by (subst c; lia).
  apply post_bind.
  eapply post_mono; [apply (preallocFiles_spec c J Hc (Join_prealloc dir) 3 0 [] w1)|].
  intros [r deferred] w2 l2 (_ & _ & _ & Hframe2 & _).
  apply post_bind. eapply post_mono; [apply closeDeferred_spec|].
  intros _ w3 l3 (_ & _ & Hfs3). apply post_ret.
  intros k x Hk Hother. rewrite Hfs3, Hframe2; [by apply H1|].
  intros v Hv. apply Hother. lia.
Qed.

Ltac keep_step :=
  lazymatch goal with
  | |- post (removeOldMongoServices _) _ _ =>
      eapply post_mono; [apply removeOldMongoServices_spec|];
      intros ? ? ? (_ & _ & ?Hrmfs & _)
  | |- post (makeJournalDirs _) _ _ =>
      eapply post_mono; [apply makeJournalDirs_keeps|]; intros ? ? ? ?Hkeep
  | |- post (initiateReplicaSet _ _ _) _ _ =>
      eapply post_mono; [apply initiateReplicaSet_spec|];
      intros ? ? ? (_ & (_ & _ & ?Hnfs & _) & _)
  | |- _ => wp_step
  end.

Lemma ensure_keeps (version : Z) (address dataDir : string) (port : Z)
    (info : DialInfo) (w : World) :
  post (ensureMongoServerAt version address dataDir port info) w (fun _ w' _ =>
    forall k x, fs w !! k = Some x ->
      (forall v, 0 <= v < 3 ->
         k <> prealloc_path (Join [filepath_Join [dataDir; "db"]; "journal"]) v) ->
      fs w' !! k = Some x).
Proof.
  unfold ensureMongoServer, ensureMongoServerAt; cbv zeta;
  rewrite mongoUpstartService_eq; cbv beta iota zeta;
  unfold upstart.Installed, upstart.Install, upstart.Running, upstart.Start;
  cbv zeta; rewrite ?mongoUpstartService_name;
  repeat (keep_step; cbn beta iota zeta delta [negb is_nil fst snd]);
  world_simpl.
  all: intros k x Hk Hother.
  all: repeat match goal with H : fs _ = _ |- _ => rewrite H; clear H end; world_simpl.
  all: try (apply Hkeep; [|exact Hother]).
  all: repeat match goal with H : fs _ = _ |- _ => rewrite H; clear H end; world_simpl.
  all: congruence.
Qed.

(** X18. The only entries of the file system whose content
    [ensureMongoServer] can change are the three preallocation files of the
    journal directory of its data directory: any other entry that exists is
    there afterwards, unchanged, in every run. *)
Theorem other_files_untouched (address dataDir : string) (port : Z) (info : DialInfo)
    (w : World) (k : string) (x : node) :
  fs w !! k = Some x ->
  (forall v, 0 <= v < 3 ->
     k <> prealloc_path (Join [filepath_Join [dataDir; "db"]; "journal"]) v) ->
  fs (world (ensureMongoServer address dataDir port info w)) !! k = Some x.
Proof. exact (ensure_keeps mongoScriptVersion address dataDir port info w k x). Qed.

(** ** Failures of the journal preallocation *)

Lemma only_elem (q : Op -> bool) (l : list Event) (ev : Event) :
  only q l -> ev ∈ l -> q (fst ev) = true.
Proof.
  unfold only. rewrite forallb_forall. intros Hl Hev. by apply Hl, list_elem_of_In.
Qed.

Lemma mkdir_chain_only (perm : Z) (chain : list string) : forall (w : World),
  post (os.mkdir_chain chain perm) w (fun _ _ l => only is_mkdir_one l).
Proof.
  induction chain as [|p up IH]; intros w.
  - apply post_ret. done.
  - cbn [os.mkdir_chain]. apply post_bind, post_get. cbn [app].
    destruct (fs w !! p) as [[m|m d]|]; try (apply post_ret; done).
    apply post_bind. eapply post_mono; [apply IH|]. intros err w1 l1 H1.
    destruct (is_nil err).
    + eapply post_mono; [apply Mkdir_spec|]. intros err2 w2 l2 (-> & _).
      by apply only_snoc.
    + apply post_ret. by rewrite app_nil_r.
Qed.

Lemma makeJournalDirs_dir_failure (dir : string) (w : World) :
  post (makeJournalDirs dir) w (fun r _ l =>
    forall e, (OpMkdirAll (Join [dir; "journal"]) 448, Failed e) ∈ l ->
      r = Some e /\ ops_where is_prealloc l = [] /\ ops_where is_close l = []).
Proof.
  unfold makeJournalDirs, os.MkdirAll. set (J := Join [dir; "journal"]). cbv zeta.
  apply post_bind, post_bind. eapply post_mono; [apply mkdir_chain_only|].
  intros err w1 l0 Ho0. apply post_report.
  assert (Hnot0 : forall e, (OpMkdirAll J 448, Failed e) ∉ l0).
  { intros e He. by apply (only_elem _ _ _ Ho0) in He. }
  destruct (is_nil err) eqn:Herr; cbn [negb].
  - apply is_nil_true in Herr. subst err.
    apply post_bind. eapply post_mono; [apply preallocFiles_only|].
    intros [r deferred] w2 l2 Ho2.
    apply post_bind. eapply post_mono; [apply closeDeferred_spec|].
    intros _ w3 l3 (Ho3 & _). apply post_ret.
    intros e He. exfalso.
    apply elem_of_app in He as [[He|He]%elem_of_app|He].
    + by apply Hnot0 in He.
    + apply list_elem_of_singleton in He. discriminate He.
    + apply elem_of_app in He as [He|[He|He]%elem_of_app].
      * by apply (only_elem _ _ _ Ho2) in He.
      * by apply (only_elem _ _ _ Ho3) in He.
      * by apply elem_of_nil in He.
  - apply is_nil_false in Herr. apply post_ret.
    intros e He. rewrite app_nil_r in *.
    apply elem_of_app in He as [He|He]; [by apply Hnot0 in He|].
    apply list_elem_of_singleton in He.
    assert (err = e) as -> by (destruct err; [done|by injection He..]).
    split; [done|].
    rewrite !ops_where_app.
    rewrite (ops_where_only is_mkdir_one is_prealloc l0 Ho0) by (by intros []).
    rewrite (ops_where_only is_mkdir_one is_close l0 Ho0) by (by intros []).
    by destruct e.
Qed.

(** X19. When [makeJournalDirs] cannot create the journal directory it
    returns the error of [MkdirAll] as it is, and opens, writes and closes
    no file. *)
Theorem journal_dir_failure (dir : string) (w : World) (e : error) :
  (OpMkdirAll (Join [dir; "journal"]) 448, Failed e) ∈ log (makeJournalDirs dir w) ->
  val (makeJournalDirs dir w) = Some e /\
  ops_where is_prealloc (log (makeJournalDirs dir w)) = [] /\
  ops_where is_close (log (makeJournalDirs dir w)) = [].
Proof. exact (makeJournalDirs_dir_failure dir w e). Qed.

Lemma went_wrong_elem (l : list Event) (ev : Event) :
  ev ∈ l -> failed ev = true -> is_journal_op (fst ev) = true ->
  List.filter went_wrong l <> [].
Proof.
  intros Hin Hf Hq Hnil.
  assert (Hev : In ev (List.filter went_wrong l)).
  { apply filter_In. split; [by apply list_elem_of_In|].
    unfold went_wrong. rewrite Hf. destruct ev as [[] []]; try done. }
  rewrite Hnil in Hev. destruct Hev.
Qed.

Ltac journal_step :=
  lazymatch goal with
  | |- post (removeOldMongoServices _) _ _ =>
      eapply post_mono; [apply removeOldMongoServices_spec|];
      intros ? ? ? (?Hrm & _)
  | |- post (makeJournalDirs _) _ _ =>
      eapply post_mono;
        [apply post_and; [apply makeJournalDirs_frame|apply makeJournalDirs_clean]|];
      intros ? ? ? [(?Hjl & _ & _) (?Hjret & _ & ?Hjclean)]
  | |- post (initiateReplicaSet _ _ _) _ _ =>
      eapply post_mono; [apply initiateReplicaSet_spec|];
      intros ? ? ? (?Hnet & _)
  | |- _ => wp_step
  end.

Ltac members :=
  repeat match goal with
  | H : _ ∈ _ ++ _ |- _ => apply elem_of_app in H as [H|H]
  | H : _ ∈ [_] |- _ => apply list_elem_of_singleton in H; subst
  | H : _ ∈ [] |- _ => by apply elem_of_nil in H
  end.

Lemma ensure_journal_failure (version : Z) (address dataDir : string) (port : Z)
    (info : DialInfo) (w : World) :
  post (ensureMongoServerAt version address dataDir port info) w (fun v _ l =>
    forall ev, ev ∈ l -> is_journal_op (fst ev) = true -> failed ev = true ->
      ops_where is_install l = [] /\ ops_where is_start l = [] /\
      ops_where is_dial l = [] /\
      exists e, v = Some (ErrorString ("Error creating journal directories: " +:+ Error e))).
Proof.
  unfold ensureMongoServer, ensureMongoServerAt; cbv zeta;
  rewrite mongoUpstartService_eq; cbv beta iota zeta;
  unfold upstart.Installed, upstart.Install, upstart.Running, upstart.Start;
  cbv zeta; rewrite ?mongoUpstartService_name;
  repeat (journal_step; cbn beta iota zeta delta [negb is_nil fst snd]).
  all: intros ev Hin Hop Hfail.
  all: try (specialize (Hjclean _ eq_refl)).
  all: try (exfalso; members;
            first [ discriminate Hop
                  | match goal with
                    | Ho : only _ ?l, H : _ ∈ ?l |- _ =>
                        apply (only_elem _ _ _ Ho) in H; by destruct ev as [[] ?]
                    end
                  | match goal with
                    | Hc : nil = nil <-> _, H : _ ∈ ?l |- _ =>
                        apply (went_wrong_elem _ _ H Hfail Hop); by apply Hc
                    end ]).
  all: clear Hin.
  all: logs; rewrite ?app_nil_r; split_and!; try done; eauto.
Qed.

(** X20. A failure of the journal preallocation ends the convergence pass:
    in every run of [ensureMongoServer] in which the creation of a
    directory, the opening of a file or a write fails, nothing is installed,
    nothing is started and the database is not dialled, and the error
    returned is the preallocator's, under the prefix of the journal
    directories.  The deferred closes are not among these operations: what
    comes of them is dropped. *)
Theorem journal_failure_stops (address dataDir : string) (port : Z) (info : DialInfo)
    (w : World) (ev : Event) :
  ev ∈ log (ensureMongoServer address dataDir port info w) ->
  is_journal_op (fst ev) = true -> failed ev = true ->
  ops_where is_install (log (ensureMongoServer address dataDir port info w)) = [] /\
  ops_where is_start (log (ensureMongoServer address dataDir port info w)) = [] /\
  ops_where is_dial (log (ensureMongoServer address dataDir port info w)) = [] /\
  exists e, val (ensureMongoServer address dataDir port info w) =
              Some (ErrorString ("Error creating journal directories: " +:+ Error e)).
Proof. exact (ensure_journal_failure mongoScriptVersion address dataDir port info w ev). Qed.

End Mongo.

(** * The claims on sample nodes *)

Lemma second_call_idle_witness :
  let first := ensureMongoServer quoted quoted "10.0.0.1" "/var/lib/x" 37017 sample_info
                 (fresh_node no_faults) in
  let second := ensureMongoServer quoted quoted "10.0.0.1" "/var/lib/x" 37017 sample_info
                  (world first) in
  val first = Some nil /\
  converged mongoScriptVersion (world first) /\
  ops_where is_install (log second) = [] /\
  ops_where is_start (log second) = [] /\
  ops_where is_initiate (log second) = [].
Proof.
  cbv zeta.
  assert (H : val (ensureMongoServer quoted quoted "10.0.0.1" "/var/lib/x" 37017
                     sample_info (fresh_node no_faults)) = Some nil)
    by (vm_compute; reflexivity).
  split; [exact H|].
  exact (second_call_idle quoted quoted "10.0.0.1" "/var/lib/x" 37017 sample_info
           "10.0.0.1" "/var/lib/x" 37017 sample_info (fresh_node no_faults) H).
Defined.

Lemma fatal_short_circuit_witness :
  let l1 := log (ensureMongoServer quoted quoted "10.0.0.1" "/var/lib/x" 37017 sample_info
                   (fresh_node (faults_on is_install "no space left on device"))) in
  let l2 := log (ensureMongoServer quoted quoted "10.0.0.1" "/var/lib/x" 37017 sample_info
                   (fresh_node (faults_on is_dial "no reachable servers"))) in
  (List.filter install_failed l1 <> [] /\
   ops_where is_start l1 = [] /\ ops_where is_initiate l1 = []) /\
  (List.filter dial_failed l2 <> [] /\
   ops_where is_query l2 = [] /\ ops_where is_initiate l2 = []).
Proof.
  cbv zeta.
  destruct (fatal_short_circuit quoted quoted "10.0.0.1" "/var/lib/x" 37017 sample_info
              (fresh_node (faults_on is_install "no space left on device"))) as [H1 _].
  destruct (fatal_short_circuit quoted quoted "10.0.0.1" "/var/lib/x" 37017 sample_info
              (fresh_node (faults_on is_dial "no reachable servers"))) as [_ H2].
  split.
  - assert (Hf : List.filter install_failed
                   (log (ensureMongoServer quoted quoted "10.0.0.1" "/var/lib/x" 37017
                           sample_info
                           (fresh_node (faults_on is_install "no space left on device"))))
                 <> []) by (vm_compute; discriminate).
    split; [exact Hf|exact (H1 Hf)].
  - assert (Hf : List.filter dial_failed
                   (log (ensureMongoServer quoted quoted "10.0.0.1" "/var/lib/x" 37017
                           sample_info
                           (fresh_node (faults_on is_dial "no reachable servers"))))
                 <> []) by (vm_compute; discriminate).
    split; [exact Hf|exact (H2 Hf)].
Defined.

Lemma legacy_cleanup_complete_witness :
  let w' := world (ensureMongoServerAt quoted quoted 4 "10.0.0.1" "/var/lib/x" 37017
                     sample_info legacy_node) in
  let r := removeOldMongoServices 1 legacy_node in
  (2 <= 4 /\
   val (ensureMongoServerAt quoted quoted 4 "10.0.0.1" "/var/lib/x" 37017 sample_info
          legacy_node) = Some nil /\
   services w' !! oldMongoServiceName = None /\
   forall v, 2 <= v < 4 -> services w' !! makeServiceName v = None) /\
  (1 <= 2 /\
   ops_where is_removal_request (log r) =
     [(OpStopAndRemove oldMongoServiceName, outcome_of (val r))] /\
   Forall (fun ev => removal_target (fst ev) = Some oldMongoServiceName) (log r)).
Proof.
  cbv zeta.
  assert (H4 : 2 <= 4) by lia.
  assert (H1 : 1 <= 2) by lia.
  assert (Hok : val (ensureMongoServerAt quoted quoted 4 "10.0.0.1" "/var/lib/x" 37017
                       sample_info legacy_node) = Some nil)
    by (vm_compute; reflexivity).
  split.
  - split; [exact H4|]. split; [exact Hok|].
    exact (proj1 (legacy_cleanup_complete quoted quoted 4 "10.0.0.1" "/var/lib/x" 37017
                    sample_info legacy_node) H4 Hok).
  - split; [exact H1|].
    exact (proj2 (legacy_cleanup_complete quoted quoted 1 "10.0.0.1" "/var/lib/x" 37017
                    sample_info legacy_node) H1).
Defined.

Lemma journal_only_before_install_witness :
  is_Some (services installed_node !! makeServiceName mongoScriptVersion) /\
  ops_where is_journal_op
    (log (ensureMongoServer quoted quoted "10.0.0.1" "/var/lib/x" 37017 sample_info
            installed_node)) = [].
Proof.
  assert (H : is_Some (services installed_node !! makeServiceName mongoScriptVersion)).
  { exists (legacy_conf "juju-db-v2"). vm_compute. reflexivity. }
  split; [exact H|].
  exact (journal_only_before_install quoted quoted "10.0.0.1" "/var/lib/x" 37017
           sample_info installed_node H).
Defined.

Lemma journal_preallocated_witness :
  let r := makeJournalDirs quoted "/var/lib/x/db" (fresh_node no_faults) in
  let J := Join ["/var/lib/x/db"; "journal"] in
  val r = Some nil /\
  (exists m, fs (world r) !! J = Some (Dir m) /\
             (fs (fresh_node no_faults) !! J = None -> m = 448) /\
             (forall m0, fs (fresh_node no_faults) !! J = Some (Dir m0) -> m = m0)) /\
  (forall v, 0 <= v < 3 ->
     exists p, fs (world r) !! prealloc_path J v =
                 Some (File p (repeat Byte.x00 (Z.to_nat (1024 * 1024)))) /\
               (fs (fresh_node no_faults) !! prealloc_path J v = None -> p = 448)) /\
  ops_where is_write (log r) =
    flat_map (fun v => repeat (OpWrite (prealloc_path J v) 65536, Ok) 16) [0; 1; 2] /\
  entries (world r) J =
    entries (fresh_node no_faults) J ∪ {[ "prealloc.0"; "prealloc.1"; "prealloc.2" ]}.
Proof.
  cbv zeta.
  assert (H : val (makeJournalDirs quoted "/var/lib/x/db" (fresh_node no_faults)) = Some nil)
    by (vm_compute; reflexivity).
  split; [exact H|].
  exact (journal_preallocated quoted quoted "/var/lib/x/db" (fresh_node no_faults) H).
Defined.

(** On a node whose journal directory exists, with mode 0755 and a journal
    file in it, [makeJournalDirs] succeeds and leaves the mode and the file
    as they are: the contract does not hold there as worded. *)
Lemma prealloc_claim_fails :
  val (makeJournalDirs quoted "/var/lib/x/db" used_node) = Some nil /\
  fs (world (makeJournalDirs quoted "/var/lib/x/db" used_node)) !! "/var/lib/x/db/journal"
    = Some (Dir 493) /\
  "j._0" ∈ entries (world (makeJournalDirs quoted "/var/lib/x/db" used_node))
             "/var/lib/x/db/journal" /\
  ~ prealloc_claim quoted "/var/lib/x/db" used_node.
Proof.
  pose (summary := fun r : Res (option error) =>
    (val r, fs (world r) !! "/var/lib/x/db/journal",
     fs (world r) !! ("/var/lib/x/db/journal" +:+ "/" +:+ "j._0"))).
  assert (Hrun : summary (makeJournalDirs quoted "/var/lib/x/db" used_node) =
                 (Some nil, Some (Dir 493), Some (File 384 []))).
  { subst summary. vm_compute. reflexivity. }
  subst summary. cbv beta in Hrun.
  apply pair_equal_spec in Hrun as [Hrun Hfile].
  apply pair_equal_spec in Hrun as [Hok Hmode].
  split; [exact Hok|]. split; [exact Hmode|]. split.
  - apply elem_of_entries. split; [discriminate|]. split; [reflexivity|].
    rewrite Hfile. eexists. reflexivity.
  - intros Hclaim. destruct (Hclaim Hok) as [Hperm _].
    assert (HJ : Join ["/var/lib/x/db"; "journal"] = "/var/lib/x/db/journal")
      by reflexivity.
    rewrite HJ, Hmode in Hperm. discriminate Hperm.
Qed.

(** In the scenario of the specification the supervisor is asked to stop
    and remove [juju-db]: a legacy removal is attempted, though nothing is
    there to remove, so the scenario does not hold as worded. *)
Lemma scenario_attempts_removal :
  ops_where is_removal_request
    (log (ensureMongoServer quoted quoted "10.0.0.1" "/var/lib/x" 37017 sample_info
            (fresh_node no_faults)))
  = [(OpStopAndRemove "juju-db", Ok)] /\
  ~ no_removal_attempted
      (log (ensureMongoServer quoted quoted "10.0.0.1" "/var/lib/x" 37017 sample_info
              (fresh_node no_faults))).
Proof.
  assert (H : ops_where is_removal_request
                (log (ensureMongoServer quoted quoted "10.0.0.1" "/var/lib/x" 37017
                        sample_info (fresh_node no_faults)))
              = [(OpStopAndRemove "juju-db", Ok)]).
  { etrans; [apply (ensure_removal_requests quoted quoted mongoScriptVersion)|].
    vm_compute. reflexivity. }
  split; [exact H|]. unfold no_removal_attempted. rewrite H. discriminate.
Qed.

(** * More of the package, on sample nodes *)

Lemma bundled_mongod_preferred_witness :
  is_Some (fs bundled_node !! JujuMongodPath) /\
  faults bundled_node (tick bundled_node) (OpStat JujuMongodPath) = None /\
  val (MongodPath bundled_node) = (JujuMongodPath, nil) /\
  log (MongodPath bundled_node) = [(OpStat JujuMongodPath, Ok)].
Proof.
  assert (H1 : is_Some (fs bundled_node !! JujuMongodPath)).
  { exists (File 493 []). vm_compute. reflexivity. }
  assert (H2 : faults bundled_node (tick bundled_node) (OpStat JujuMongodPath) = None)
    by reflexivity.
  split; [exact H1|]. split; [exact H2|].
  exact (bundled_mongod_preferred bundled_node H1 H2).
Defined.

Lemma mongod_from_search_path_witness :
  (fs path_node !! JujuMongodPath = None \/
   is_Some (faults path_node (tick path_node) (OpStat JujuMongodPath))) /\
  search_path path_node = ["/usr/local/bin"] ++ "/usr/bin" :: [] /\
  Forall (fun d => exec.findExecutable path_node (path_entry d "mongod") = false)
         ["/usr/local/bin"] /\
  exec.findExecutable path_node (path_entry "/usr/bin" "mongod") = true /\
  val (MongodPath path_node) = ("/usr/bin/mongod", nil).
Proof.
  assert (H1 : fs path_node !! JujuMongodPath = None \/
               is_Some (faults path_node (tick path_node) (OpStat JujuMongodPath))).
  { left. vm_compute. reflexivity. }
  assert (H2 : search_path path_node = ["/usr/local/bin"] ++ "/usr/bin" :: [])
    by reflexivity.
  assert (H3 : Forall (fun d => exec.findExecutable path_node (path_entry d "mongod") = false)
                      ["/usr/local/bin"]).
  { constructor; [vm_compute; reflexivity|constructor]. }
  assert (H4 : exec.findExecutable path_node (path_entry "/usr/bin" "mongod") = true)
    by (vm_compute; reflexivity).
  split; [exact H1|]. split; [exact H2|]. split; [exact H3|]. split; [exact H4|].
  exact (mongod_from_search_path path_node ["/usr/local/bin"] [] "/usr/bin" H1 H2 H3 H4).
Defined.

Lemma only_legacy_touched_witness :
  ~ is_legacy_name 3 "juju-db-v3" /\
  services (world (removeOldMongoServices 3 legacy_node)) !! "juju-db-v3" =
    services legacy_node !! "juju-db-v3" /\
  ("juju-db-v3" ∈ running (world (removeOldMongoServices 3 legacy_node)) <->
   "juju-db-v3" ∈ running legacy_node).
Proof.
  assert (H : ~ is_legacy_name 3 "juju-db-v3") by exact (makeServiceName_not_legacy 3).
  split; [exact H|].
  exact (only_legacy_touched quoted quoted 3 "juju-db-v3" legacy_node H).
Defined.

Lemma remove_after_ensure_witness :
  let first := ensureMongoServer quoted quoted "10.0.0.1" "/var/lib/x" 37017 sample_info
                 installed_node in
  let second := RemoveService (world first) in
  val first = Some nil /\ val second = nil /\
  services (world second) !! makeServiceName mongoScriptVersion = None /\
  (forall nm, is_legacy_name mongoScriptVersion nm -> services (world second) !! nm = None) /\
  fs (world second) = fs (world first) /\
  rsconf (world second) = rsconf (world first) /\ rsconf (world second) <> None.
Proof.
  cbv zeta.
  assert (Hf : val (ensureMongoServer quoted quoted "10.0.0.1" "/var/lib/x" 37017
                      sample_info installed_node) = Some nil)
    by (vm_compute; reflexivity).
  assert (Hs : val (RemoveService
                      (world (ensureMongoServer quoted quoted "10.0.0.1" "/var/lib/x" 37017
                                sample_info installed_node))) = nil)
    by (vm_compute; reflexivity).
  split; [exact Hf|]. split; [exact Hs|].
  exact (remove_after_ensure quoted quoted "10.0.0.1" "/var/lib/x" 37017 sample_info
           installed_node Hf Hs).
Defined.

Lemma dial_only_when_running_witness :
  ops_where is_dial
    (log (ensureMongoServer quoted quoted "10.0.0.1" "/var/lib/x" 37017 sample_info
            installed_node)) <> [] /\
  is_Some (services (world (ensureMongoServer quoted quoted "10.0.0.1" "/var/lib/x" 37017
                              sample_info installed_node))
             !! makeServiceName mongoScriptVersion) /\
  makeServiceName mongoScriptVersion
    ∈ running (world (ensureMongoServer quoted quoted "10.0.0.1" "/var/lib/x" 37017
                        sample_info installed_node)).
Proof.
  assert (Hd : ops_where is_dial
                 (log (ensureMongoServer quoted quoted "10.0.0.1" "/var/lib/x" 37017
                         sample_info installed_node)) <> [])
    by (vm_compute; discriminate).
  split; [exact Hd|].
  exact (dial_only_when_running quoted quoted "10.0.0.1" "/var/lib/x" 37017 sample_info
           installed_node Hd).
Defined.

Lemma other_files_untouched_witness :
  fs used_node !! "/var/lib/x/db/journal/j._0" = Some (File 384 []) /\
  (forall v, 0 <= v < 3 ->
     "/var/lib/x/db/journal/j._0" <>
     prealloc_path (Join [filepath_Join ["/var/lib/x"; "db"]; "journal"]) v) /\
  fs (world (ensureMongoServer quoted quoted "10.0.0.1" "/var/lib/x" 37017 sample_info
               used_node)) !! "/var/lib/x/db/journal/j._0" = Some (File 384 []).
Proof.
  assert (H1 : fs used_node !! "/var/lib/x/db/journal/j._0" = Some (File 384 []))
    by (vm_compute; reflexivity).
  assert (H2 : forall v, 0 <= v < 3 ->
                 "/var/lib/x/db/journal/j._0" <>
                 prealloc_path (Join [filepath_Join ["/var/lib/x"; "db"]; "journal"]) v).
  { intros v Hv. assert (v = 0 \/ v = 1 \/ v = 2) as [->|[->| ->]] by lia;
      vm_compute; discriminate. }
  split; [exact H1|]. split; [exact H2|].
  exact (other_files_untouched quoted quoted "10.0.0.1" "/var/lib/x" 37017 sample_info
           used_node "/var/lib/x/db/journal/j._0" (File 384 []) H1 H2).
Defined.

Lemma journal_dir_failure_witness :
  let e := ErrorString "mkdir /var/lib/x/db: not a directory" in
  (OpMkdirAll (Join ["/var/lib/x/db"; "journal"]) 448, Failed e)
    ∈ log (makeJournalDirs quoted "/var/lib/x/db" blocked_node) /\
  val (makeJournalDirs quoted "/var/lib/x/db" blocked_node) = Some e /\
  ops_where is_prealloc (log (makeJournalDirs quoted "/var/lib/x/db" blocked_node)) = [] /\
  ops_where is_close (log (makeJournalDirs quoted "/var/lib/x/db" blocked_node)) = [].
Proof.
  cbv zeta.
  assert (H : (OpMkdirAll (Join ["/var/lib/x/db"; "journal"]) 448,
               Failed (ErrorString "mkdir /var/lib/x/db: not a directory"))
                ∈ log (makeJournalDirs quoted "/var/lib/x/db" blocked_node)).
  { apply list_elem_of_In. vm_compute. left. reflexivity. }
  split; [exact H|].
  exact (journal_dir_failure quoted quoted "/var/lib/x/db" blocked_node
           (ErrorString "mkdir /var/lib/x/db: not a directory") H).
Defined.

Lemma journal_failure_stops_witness :
  let r := ensureMongoServer quoted quoted "10.0.0.1" "/var/lib/x" 37017 sample_info
             (fresh_node (faults_on is_open "no space left on device")) in
  let ev := (OpOpenFile "/var/lib/x/db/journal/prealloc.0" 577 448,
             Failed (ErrorString "no space left on device")) in
  ev ∈ log r /\ is_journal_op (fst ev) = true /\ failed ev = true /\
  ops_where is_install (log r) = [] /\ ops_where is_start (log r) = [] /\
  ops_where is_dial (log r) = [] /\
  exists e, val r = Some (ErrorString ("Error creating journal directories: " +:+ Error e)).
Proof.
  cbv zeta.
  assert (H : (OpOpenFile "/var/lib/x/db/journal/prealloc.0" 577 448,
               Failed (ErrorString "no space left on device"))
                ∈ log (ensureMongoServer quoted quoted "10.0.0.1" "/var/lib/x" 37017
                         sample_info
                         (fresh_node (faults_on is_open "no space left on device")))).
  { apply list_elem_of_In. vm_compute. repeat (first [left; reflexivity | right]). }
  split; [exact H|]. split; [reflexivity|]. split; [reflexivity|].
  exact (journal_failure_stops quoted quoted "10.0.0.1" "/var/lib/x" 37017 sample_info
           (fresh_node (faults_on is_open "no space left on device")) _ H eq_refl eq_refl).
Defined.
